(** * The rule transcoder of [tools/rule_transcoder.py]

    A shallow embedding of [RuleTranscoder]: the line-oriented forward
    ([_transcode_to_cryptex]) and reverse ([_transcode_from_cryptex])
    transforms, their streaming counterpart ([stream_transcode_lines]) and
    the archive batch processors ([stream_transcode_zip],
    [transcode_zip_file]).

    Python [str] values are modelled as [string]; the model covers ASCII
    text.  The classes [\w] and [\s] of [re], [str.strip], [str.lower] and
    [str.title] are given their ASCII meaning.  Insertion-ordered [dict]s
    whose iteration order matters are association lists; the output
    directory is a finite map from path to file content, and the way
    [pathlib] joins the directory with a file name is a parameter of the
    archive processors.  The generator of [stream_transcode_lines] is
    modelled twice: run to the end of a finite input, as the list of the
    lines it yields, and as an object that is resumed by [next]. *)

From Stdlib Require Import String Ascii List Bool Arith Lia DecimalString.
From stdpp Require Import gmap strings.
Import ListNotations.

(** ** Characters *)

Module Char.

Definition code (c : ascii) : nat := nat_of_ascii c.

Definition between (lo hi : nat) (c : ascii) : bool :=
  (lo <=? code c) && (code c <=? hi).

Definition is_upper (c : ascii) : bool := between 65 90 c.
Definition is_lower (c : ascii) : bool := between 97 122 c.
Definition is_digit (c : ascii) : bool := between 48 57 c.

(** [str.isalpha] restricted to ASCII: the cased characters. *)
Definition is_cased (c : ascii) : bool := is_upper c || is_lower c.

(** The class [\w] of [re]: letters, digits and the underscore. *)
Definition is_word (c : ascii) : bool :=
  is_cased c || is_digit c || (code c =? 95).

(** The class [\s] of [re] and the characters removed by [str.strip()]:
    tab, line feed, vertical tab, form feed, carriage return, the four
    separators 0x1c..0x1f and the space. *)
Definition is_space (c : ascii) : bool :=
  between 9 13 c || between 28 31 c || (code c =? 32).

Definition lower (c : ascii) : ascii :=
  if is_upper c then ascii_of_nat (code c + 32) else c.

Definition upper (c : ascii) : ascii :=
  if is_lower c then ascii_of_nat (code c - 32) else c.

Definition newline : ascii := ascii_of_nat 10.
Definition carriage_return : ascii := ascii_of_nat 13.

End Char.

(** ** The [str] methods the transcoder uses *)

Module Str.

Definition nl : string := String Char.newline EmptyString.

(** [s.startswith(p)] *)
Fixpoint startswith (p s : string) : bool :=
  match p, s with
  | EmptyString, _ => true
  | String a p', String b s' => Ascii.eqb a b && startswith p' s'
  | String _ _, EmptyString => false
  end.

(** [sub in s] *)
Fixpoint contains (sub s : string) : bool :=
  startswith sub s ||
  match s with
  | EmptyString => false
  | String _ s' => contains sub s'
  end.

Fixpoint drop (n : nat) (s : string) : string :=
  match n, s with
  | S k, String _ s' => drop k s'
  | _, _ => s
  end.

(** [s.replace(old, new)] for a non-empty [old]: occurrences are found
    from the left and do not overlap; [skip] counts the characters of the
    occurrence just replaced that are still to be passed over. *)
Fixpoint replace_from (old new : string) (skip : nat) (s : string) : string :=
  match s with
  | EmptyString => EmptyString
  | String c s' =>
      match skip with
      | S k => replace_from old new k s'
      | O =>
          if startswith old s
          then new +:+ replace_from old new (String.length old - 1) s'
          else String c (replace_from old new 0 s')
      end
  end.

(** [s.replace("", new)] puts [new] before every character and at the
    end. *)
Fixpoint intersperse (new s : string) : string :=
  match s with
  | EmptyString => new
  | String c s' => new +:+ String c (intersperse new s')
  end.

Definition replace (old new s : string) : string :=
  match old with
  | EmptyString => intersperse new s
  | String _ _ => replace_from old new 0 s
  end.

Fixpoint lstrip (s : string) : string :=
  match s with
  | EmptyString => EmptyString
  | String c s' => if Char.is_space c then lstrip s' else s
  end.

Fixpoint rstrip (s : string) : string :=
  match s with
  | EmptyString => EmptyString
  | String c s' =>
      match rstrip s' with
      | EmptyString => if Char.is_space c then EmptyString else String c EmptyString
      | r => String c r
      end
  end.

(** [s.strip()] *)
Definition strip (s : string) : string := rstrip (lstrip s).

(** [s.rstrip('\n\r')] *)
Fixpoint rstrip_newlines (s : string) : string :=
  match s with
  | EmptyString => EmptyString
  | String c s' =>
      match rstrip_newlines s' with
      | EmptyString =>
          if Ascii.eqb c Char.newline || Ascii.eqb c Char.carriage_return
          then EmptyString else String c EmptyString
      | r => String c r
      end
  end.

Fixpoint map (f : ascii -> ascii) (s : string) : string :=
  match s with
  | EmptyString => EmptyString
  | String c s' => String (f c) (map f s')
  end.

(** [s.lower()] *)
Definition lower (s : string) : string := map Char.lower s.

(** [s.title()]: a cased character is upper-cased when the character
    before it is not cased, and lower-cased otherwise. *)
Fixpoint title_from (previous_is_cased : bool) (s : string) : string :=
  match s with
  | EmptyString => EmptyString
  | String c s' =>
      String (if previous_is_cased then Char.lower c else Char.upper c)
             (title_from (Char.is_cased c) s')
  end.

Definition title (s : string) : string := title_from false s.

(** [s.split(sep)] for a one-character separator: never empty. *)
Fixpoint split (sep : ascii) (s : string) : list string :=
  match s with
  | EmptyString => [EmptyString]
  | String c s' =>
      if Ascii.eqb c sep then EmptyString :: split sep s'
      else match split sep s' with
           | piece :: pieces => String c piece :: pieces
           | [] => [String c EmptyString]
           end
  end.

(** [s.split(sep)[-1]] *)
Definition last_piece (sep : ascii) (s : string) : string :=
  List.last (split sep s) EmptyString.

(** [sep.join(pieces)] *)
Fixpoint join (sep : string) (pieces : list string) : string :=
  match pieces with
  | [] => EmptyString
  | [p] => p
  | p :: rest => p +:+ sep +:+ join sep rest
  end.

(** [''.join(pieces)] *)
Definition concat (pieces : list string) : string :=
  fold_right String.append EmptyString pieces.

(** The truth value of a string: it is not empty. *)
Definition nonempty (s : string) : bool :=
  match s with
  | EmptyString => false
  | String _ _ => true
  end.

Fixpoint forallb (p : ascii -> bool) (s : string) : bool :=
  match s with
  | EmptyString => true
  | String c s' => p c && forallb p s'
  end.

(** [s.endswith(suffix)] *)
Fixpoint endswith (suffix s : string) : bool :=
  String.eqb suffix s ||
  match s with
  | EmptyString => false
  | String _ s' => endswith suffix s'
  end.

End Str.

(** ** The regular expressions of the transcoder

    Each pattern of the source is written out as a matcher on the text that
    starts at the current position.  All quantifiers involved are greedy and
    the character classes that follow one another are disjoint, so the
    longest run is the only one the backtracking engine can accept; the one
    place where giving characters back matters ([\s*(.+)]) is modelled with
    its backtracking. *)

Module Re.

(** The longest prefix whose characters satisfy [p], and what follows. *)
Fixpoint span (p : ascii -> bool) (s : string) : string * string :=
  match s with
  | EmptyString => (EmptyString, EmptyString)
  | String c s' =>
      if p c then let '(run, rest) := span p s' in (String c run, rest)
      else (EmptyString, s)
  end.

Definition starts_with_word (s : string) : bool :=
  match s with
  | String c _ => Char.is_word c
  | EmptyString => false
  end.

(** [\b]: exactly one of the two neighbouring characters is a word
    character; [prev_word] tells whether the character before is. *)
Definition word_boundary (prev_word : bool) (s : string) : bool :=
  xorb prev_word (starts_with_word s).

(** What a match gives to the replacement function: the two groups, and
    the number of characters the whole match covers. *)
Record found : Type := Found { group1 : string; group2 : string; width : nat }.

Definition matcher : Type := bool -> string -> option found.

(** A literal character of a pattern: what follows it, when it is next. *)
Definition expect (c : ascii) (s : string) : option string :=
  match s with
  | String d s' => if Ascii.eqb d c then Some s' else None
  | EmptyString => None
  end.

(** [\b(\w+)\.(\w+)] at the current position. *)
Definition module_field : matcher := fun prev_word s =>
  if word_boundary prev_word s then
    let '(g1, after_g1) := span Char.is_word s in
    if Str.nonempty g1 then
      match expect "." after_g1 with
      | Some after_dot =>
          let '(g2, _) := span Char.is_word after_dot in
          if Str.nonempty g2
          then Some (Found g1 g2 (String.length g1 + 1 + String.length g2))
          else None
      | None => None
      end
    else None
  else None.

(** [\b(\w+)\.(\w+)\s*\(] at the current position. *)
Definition module_call : matcher := fun prev_word s =>
  if word_boundary prev_word s then
    let '(g1, after_g1) := span Char.is_word s in
    if Str.nonempty g1 then
      match expect "." after_g1 with
      | Some after_dot =>
          let '(g2, after_g2) := span Char.is_word after_dot in
          if Str.nonempty g2 then
            let '(blanks, after_blanks) := span Char.is_space after_g2 in
            match expect "(" after_blanks with
            | Some _ =>
                Some (Found g1 g2 (String.length g1 + 1 + String.length g2
                                   + String.length blanks + 1))
            | None => None
            end
          else None
      | None => None
      end
    else None
  else None.

(** [re.sub(pattern, repl, s)]: the text is scanned from the left; where
    the pattern matches, the match is replaced by [repl] of its groups
    and the scan goes on behind the match, elsewhere the character is
    copied.  The patterns here match no empty text. *)
Section Sub.
Variable pattern : matcher.
Variable repl : found -> string.

Fixpoint sub_from (prev_word : bool) (skip : nat) (s : string) : string :=
  match s with
  | EmptyString => EmptyString
  | String c s' =>
      match skip with
      | S k => sub_from (Char.is_word c) k s'
      | O =>
          match pattern prev_word s with
          | Some m => repl m +:+ sub_from (Char.is_word c) (width m - 1) s'
          | None => String c (sub_from (Char.is_word c) 0 s')
          end
      end
  end.

Definition sub (s : string) : string := sub_from false 0 s.
End Sub.

(** [re.match(r'^\s*condition:\s*$', line, re.IGNORECASE)] and the same
    for [strings:]; [header] is given in lower case. *)
Definition section_header (header line : string) : bool :=
  let body := Str.lstrip line in
  Str.startswith header (Str.lower body)
  && String.eqb (Str.lstrip (Str.drop (String.length header) body)) EmptyString.

(** [re.match(r'^\s*(meta|rule):', line, re.IGNORECASE)] *)
Definition meta_or_rule_header (line : string) : bool :=
  let body := Str.lower (Str.lstrip line) in
  Str.startswith "meta:" body || Str.startswith "rule:" body.

Definition marker : string := "// Original:".

Definition not_newline (c : ascii) : bool := negb (Ascii.eqb c Char.newline).

(** [(.+)]: the dot matches everything but a line feed. *)
Definition dot_plus (s : string) : option string :=
  match fst (span not_newline s) with
  | EmptyString => None
  | payload => Some payload
  end.

(** [\s*(.+)]: the blanks are taken greedily, and given back one by one
    when nothing is left for the group. *)
Fixpoint blanks_then_payload (s : string) : option string :=
  match s with
  | EmptyString => None
  | String c s' =>
      if Char.is_space c then
        match blanks_then_payload s' with
        | Some payload => Some payload
        | None => dot_plus s
        end
      else dot_plus s
  end.

(** [re.search(r'// Original:\s*(.+)', line)], giving [group(1)]. *)
Fixpoint search_original (s : string) : option string :=
  match
    (if Str.startswith marker s
     then blanks_then_payload (Str.drop (String.length marker) s)
     else None)
  with
  | Some payload => Some payload
  | None =>
      match s with
      | EmptyString => None
      | String _ s' => search_original s'
      end
  end.

End Re.

(** ** Insertion-ordered dictionaries *)

Module Dict.

Definition t : Type := list (string * string).

Fixpoint get (k : string) (d : t) : option string :=
  match d with
  | [] => None
  | (k', v) :: d' => if String.eqb k' k then Some v else get k d'
  end.

(** [d[k] = v]: a key that is present keeps its place. *)
Fixpoint set (k v : string) (d : t) : t :=
  match d with
  | [] => [(k, v)]
  | (k', v') :: d' =>
      if String.eqb k' k then (k', v) :: d' else (k', v') :: set k v d'
  end.

(** [{v: k for k, v in d.items()}] *)
Definition invert (d : t) : t :=
  fold_left (fun acc kv => set (snd kv) (fst kv) acc) d [].

End Dict.

(** ** The transcoder *)

(** An entry of the Cryptex dictionary as [_build_symbol_map] reads it:
    [entry.get("symbol", "")] and [entry.get("pyro_name", "")], a missing
    field being the empty string. *)
Record DictionaryEntry : Type := Entry { symbol : string; pyro_name : string }.

Record RuleTranscoder : Type := Transcoder {
  cryptex_dict : list DictionaryEntry;
  symbol_to_codename : Dict.t;
  codename_to_symbol : Dict.t;
  module_mappings : Dict.t
}.

Definition _build_symbol_map (entries : list DictionaryEntry) : Dict.t :=
  fold_left
    (fun symbol_map entry =>
       if Str.nonempty (symbol entry) && Str.nonempty (pyro_name entry)
       then Dict.set (symbol entry) (pyro_name entry) symbol_map
       else symbol_map)
    entries [].

(** [RuleTranscoder.__init__], from the entries of the loaded dictionary. *)
Definition RuleTranscoder_init (entries : list DictionaryEntry) : RuleTranscoder :=
  let symbol_map := _build_symbol_map entries in
  {| cryptex_dict := entries;
     symbol_to_codename := symbol_map;
     codename_to_symbol := Dict.invert symbol_map;
     module_mappings :=
       [ ("pe", "IronCurtain"); ("elf", "Ghostwire"); ("dotnet", "Netrunner");
         ("macho", "Machinist"); ("dex", "Android"); ("hash", "Digest");
         ("math", "Calculator"); ("time", "Chronometer");
         ("string", "TextProcessor"); ("console", "Terminal");
         ("cuckoo", "Sandbox"); ("magic", "FileType") ] |}.

Definition translate_module_reference (self : RuleTranscoder) (module_name : string) : string :=
  match Dict.get (Str.lower module_name) (module_mappings self) with
  | Some codename => codename
  | None => "Module-" +:+ Str.title module_name
  end.

(** The section flags, the only state carried from one line to the next. *)
Record sections : Type := Sections { in_condition : bool; in_strings : bool }.

Definition no_section : sections := Sections false false.

(** "Detect sections": the [if]/[elif] chain at the head of the loop body. *)
Definition detect_sections (st : sections) (line : string) : sections :=
  if Re.section_header "condition:" line then Sections true false
  else if Re.section_header "strings:" line then Sections false true
  else if Re.meta_or_rule_header line then Sections false false
  else st.

(** The two [re.sub] calls applied to a line of the condition section. *)
Definition translate_field (self : RuleTranscoder) (m : Re.found) : string :=
  translate_module_reference self (Re.group1 m) +:+ "." +:+ Re.group2 m.

Definition translate_call (self : RuleTranscoder) (m : Re.found) : string :=
  translate_module_reference self (Re.group1 m) +:+ "." +:+ Re.group2 m +:+ "(".

Definition translate_condition_line (self : RuleTranscoder) (line : string) : string :=
  Re.sub Re.module_call (translate_call self)
    (Re.sub Re.module_field (translate_field self) line).

(** [line != original_line and not line.strip().startswith('//')] *)
Definition changed (line original_line : string) : bool :=
  negb (String.eqb line original_line)
  && negb (Str.startswith "//" (Str.strip line)).

Definition to_cryptex_line (self : RuleTranscoder) (st : sections) (original_line : string)
  : list string :=
  let line :=
    if in_condition st then translate_condition_line self original_line
    else original_line in
  (if changed line original_line
   then ["    // Original: " +:+ Str.strip original_line] else [])
  ++ [line].

Fixpoint to_cryptex_lines (self : RuleTranscoder) (st : sections) (lines : list string)
  : list string :=
  match lines with
  | [] => []
  | line :: rest =>
      let st' := detect_sections st line in
      to_cryptex_line self st' line ++ to_cryptex_lines self st' rest
  end.

Definition _transcode_to_cryptex (self : RuleTranscoder) (content : string) : string :=
  Str.join Str.nl (to_cryptex_lines self no_section (Str.split Char.newline content)).

(** "Reverse module translations": every alias of the reverse map that
    occurs in the line is replaced, in the order of the map. *)
Definition reverse_modules (reverse_module_map : Dict.t) (line : string) : string :=
  fold_left
    (fun line cm =>
       let '(codename, module) := cm in
       if Str.contains codename line then Str.replace codename module line else line)
    reverse_module_map line.

(** "Reverse function translations". *)
Definition reverse_functions (self : RuleTranscoder) (line : string) : string :=
  fold_left
    (fun line cs =>
       let '(codename, symbol) := cs in
       if Str.contains codename line then
         let func_name := Str.last_piece "-" codename in
         if Str.contains func_name line && Str.nonempty symbol then
           let original_func :=
             if Str.contains "_" symbol then Str.last_piece "_" symbol else symbol in
           Str.replace func_name original_func line
         else line
       else line)
    (codename_to_symbol self) line.

Definition reverse_substitution (self : RuleTranscoder) (line : string) : string :=
  reverse_functions self (reverse_modules (Dict.invert (module_mappings self)) line).

Definition from_cryptex_line (self : RuleTranscoder) (line : string) : list string :=
  if Str.contains Re.marker line then
    match Re.search_original line with
    | Some payload => [payload]
    | None => []
    end
  else [reverse_substitution self line].

Fixpoint from_cryptex_lines (self : RuleTranscoder) (lines : list string) : list string :=
  match lines with
  | [] => []
  | line :: rest => from_cryptex_line self line ++ from_cryptex_lines self rest
  end.

Definition _transcode_from_cryptex (self : RuleTranscoder) (content : string) : string :=
  Str.join Str.nl (from_cryptex_lines self (Str.split Char.newline content)).

Definition transcode_rule_content (self : RuleTranscoder) (rule_content mode : string) : string :=
  if String.eqb mode "from_cryptex" then _transcode_from_cryptex self rule_content
  else _transcode_to_cryptex self rule_content.

(** *** Streaming *)

(** The tail of the loop body of [stream_transcode_lines]: the tag, when
    the line was changed, and the line itself. *)
Definition stream_emit (processed_line original_line : string) : list string :=
  (if changed processed_line original_line
   then ["    // Original: " +:+ original_line +:+ Str.nl] else [])
  ++ [processed_line +:+ Str.nl].

(** One turn of the loop of [stream_transcode_lines]: the lines yielded for
    one input line, under the flags as updated for that line. *)
Definition stream_step (self : RuleTranscoder) (mode : string) (st : sections)
  (original_line : string) : list string :=
  if String.eqb mode "to_cryptex" && in_condition st then
    stream_emit (translate_condition_line self original_line) original_line
  else if String.eqb mode "from_cryptex" then
    if Str.contains Re.marker original_line then
      match Re.search_original original_line with
      | Some payload => [payload +:+ Str.nl]
      | None => []
      end
    else stream_emit (reverse_substitution self original_line) original_line
  else stream_emit original_line original_line.

Fixpoint stream_from (self : RuleTranscoder) (mode : string) (st : sections)
  (input_stream : list string) : list string :=
  match input_stream with
  | [] => []
  | line :: rest =>
      let original_line := Str.rstrip_newlines line in
      let st' := detect_sections st original_line in
      stream_step self mode st' original_line ++ stream_from self mode st' rest
  end.

(** The generator, run to the end of a finite input; both flags start
    [False] at every call. *)
Definition stream_transcode_lines (self : RuleTranscoder) (input_stream : list string)
  (mode : string) : list string :=
  stream_from self mode no_section input_stream.

(** ** Archives *)

(** What [zip_ref.read(name).decode('utf-8', errors='ignore')] does for a
    member of the archive: it gives the member's text (decoding with
    [errors='ignore'] never raises), or reading the member raises. *)
Inductive member : Type :=
| Stored (text : string)
| Damaged (exception : string).

(** The members in the order of the archive's directory. *)
Definition ZipFile : Type := list (string * member).

Definition namelist (z : ZipFile) : list string := List.map fst z.

(** [zip_ref.read(name)] looks the name up in [NameToInfo], where a later
    member of the same name has replaced an earlier one. *)
Definition zip_read (z : ZipFile) (name : string) : option member :=
  fold_left
    (fun found entry => if String.eqb (fst entry) name then Some (snd entry) else found)
    z None.

(** [f.endswith('.yar') or f.endswith('.yara')] *)
Definition is_rule_file (f : string) : bool :=
  Str.endswith ".yar" f || Str.endswith ".yara" f.

(** [Path(file_info).name] for a member name that passed [is_rule_file]
    (so that it does not end with a slash or a dot): what follows the last
    slash.  Member names are taken as [zipfile] gives them, their folders
    separated by slashes; this is the name [PurePosixPath] gives, and
    [PureWindowsPath] gives the same unless the member name begins with a
    drive letter and a colon or with two slashes. *)
Definition path_name (file_info : string) : string := Str.last_piece "/" file_info.


(** The dictionaries that [stream_transcode_zip] yields. *)
Inductive progress : Type :=
| started (total_files : nat) (zip_path : string)
| processing (file output progress_text : string)
| error (file message : string)
| completed (total_files transcoded_files : nat) (output_dir : string).

Definition str_of_nat (n : nat) : string :=
  DecimalString.NilZero.string_of_uint (Nat.to_uint n).

(** The body of the [try] up to the write: the transcoded content, or the
    message of the exception raised. *)
Definition stream_transcode_member (self : RuleTranscoder) (z : ZipFile) (mode file_info : string)
  : string + string :=
  match zip_read z file_info with
  | Some (Stored content) =>
      let lines := Str.split Char.newline content in
      inl (Str.concat (stream_transcode_lines self lines mode))
  | Some (Damaged exception) => inr exception
  | None => inr "KeyError"
  end.

(** [str(output_dir / name)].  How [pathlib] joins a directory with a
    name, and how it writes the result out, depends on the platform the
    program runs on ([PurePosixPath] puts a slash between the two,
    [PureWindowsPath] a backslash, and the latter lets a name that begins
    with a drive replace the directory), so the archive processors are
    defined for any such operation [joinpath]. *)
Section Output.
Variable joinpath : string -> string -> string.

(** The loop over [file_list]; the state is the counter and the output
    directory, a map from path to content that [write_text] updates. *)
Fixpoint stream_zip_loop (self : RuleTranscoder) (z : ZipFile) (output_dir mode : string)
  (total_files : nat) (file_list : list string)
  (transcoded_count : nat) (files : gmap string string)
  : list progress * (nat * gmap string string) :=
  match file_list with
  | [] => ([], (transcoded_count, files))
  | file_info :: rest =>
      match stream_transcode_member self z mode file_info with
      | inl transcoded_content =>
          let output_file := joinpath output_dir (path_name file_info) in
          let files' := <[output_file := transcoded_content]> files in
          let count' := S transcoded_count in
          let '(events, final) :=
            stream_zip_loop self z output_dir mode total_files rest count' files' in
          (processing file_info output_file
             (str_of_nat count' +:+ "/" +:+ str_of_nat total_files) :: events, final)
      | inr message =>
          let '(events, final) :=
            stream_zip_loop self z output_dir mode total_files rest transcoded_count files in
          (error file_info message :: events, final)
      end
  end.

(** [stream_transcode_zip], consumed to the end, for an archive that exists
    and an output directory already resolved: the events in the order they
    are yielded, and the output directory afterwards. *)
Definition stream_transcode_zip (self : RuleTranscoder) (zip_path : string) (z : ZipFile)
  (output_dir mode : string) (files : gmap string string)
  : list progress * gmap string string :=
  let file_list := List.filter is_rule_file (namelist z) in
  let total_files := length file_list in
  let '(events, (transcoded_count, files')) :=
    stream_zip_loop self z output_dir mode total_files file_list 0 files in
  (started total_files zip_path
     :: events ++ [completed total_files transcoded_count output_dir],
   files').

(** [transcode_zip_file]: no [try] here, so an exception ends the call
    ([inr]); the files written before it stay.  The state is the output
    directory only: the temporary file that the method also writes, and
    unlinks again unless the read has raised, lies in the directory for
    temporary files and is left out. *)
Fixpoint transcode_zip_loop (self : RuleTranscoder) (z : ZipFile) (output_dir mode : string)
  (names : list string) (transcoded_files : list string) (files : gmap string string)
  : (list string + string) * gmap string string :=
  match names with
  | [] => (inl transcoded_files, files)
  | file_info :: rest =>
      if is_rule_file file_info then
        match zip_read z file_info with
        | Some (Stored content) =>
            let transcoded := transcode_rule_content self content mode in
            let output_file := joinpath output_dir (path_name file_info) in
            transcode_zip_loop self z output_dir mode rest
              (transcoded_files ++ [output_file])
              (<[output_file := transcoded]> files)
        | Some (Damaged exception) => (inr exception, files)
        | None => (inr "KeyError", files)
        end
      else transcode_zip_loop self z output_dir mode rest transcoded_files files
  end.

Definition transcode_zip_file (self : RuleTranscoder) (z : ZipFile) (output_dir mode : string)
  (files : gmap string string) : (list string + string) * gmap string string :=
  transcode_zip_loop self z output_dir mode (namelist z) [] files.

End Output.

(** The join of [PurePosixPath], for an output directory other than the
    current one, written as [str] gives it, and a name of one component. *)
Definition posix_joinpath (output_dir name : string) : string :=
  output_dir +:+ "/" +:+ name.


(** ** Auxiliary notions for the statements *)

(** The section flags after a run of streamed lines. *)
Definition sections_after (st : sections) (input_stream : list string) : sections :=
  fold_left (fun st line => detect_sections st (Str.rstrip_newlines line)) input_stream st.

(** The same for the lines of [_transcode_to_cryptex], which are not
    stripped. *)
Definition sections_past (st : sections) (lines : list string) : sections :=
  fold_left detect_sections lines st.

(** The dictionary of scenario A: one entry, [pe_get_section] with the
    codename [IronCurtain-Section]. *)
Definition scenario_transcoder : RuleTranscoder :=
  RuleTranscoder_init [Entry "pe_get_section" "IronCurtain-Section"].

Definition sample_rule : string :=
  Str.join Str.nl
    [ "rule TestRule {";
      "    condition:";
      "        pe.number_of_sections > 5";
      "}" ].

(** The output path that [stream_transcode_zip] reports for a member is
    the output directory joined with the member's base name. *)
Definition output_is_base_name (joinpath : string -> string -> string)
  (output_dir : string) (event : progress) : Prop :=
  match event with
  | processing file output _ => output = joinpath output_dir (path_name file)
  | _ => True
  end.

(** An archive with two rule files of the same base name in two folders. *)
Definition colliding_archive : ZipFile :=
  [ ("windows/trojan.yar", Stored "rule windows_trojan { condition: true }");
    ("linux/trojan.yar", Stored "rule linux_trojan { condition: true }") ].

(** An archive of three rule files whose second member cannot be read. *)
Definition damaged_archive : ZipFile :=
  [ ("first.yar", Stored "rule first { condition: true }");
    ("second.yar", Damaged "Bad CRC-32 for file 'second.yar'");
    ("third.yara", Stored "rule third { condition: true }") ].



(** A dictionary in which one codename is the beginning of another. *)
Definition nested_codenames : list DictionaryEntry :=
  [ Entry "pe_scan" "Alpha-Scan"; Entry "pe_scanall" "Alpha-ScanAll" ].


(** A text matching [\w+]: an identifier of the rule language. *)
Definition identifier (s : string) : bool :=
  Str.nonempty s && Str.forallb Char.is_word s.

(** [\b(\w+)\.(\w+)] matches somewhere in [s]; [prev_word] tells whether the
    character before [s] is a word character. *)
Fixpoint has_module_field (prev_word : bool) (s : string) : bool :=
  match s with
  | EmptyString => false
  | String c s' =>
      match Re.module_field prev_word s with
      | Some _ => true
      | None => has_module_field (Char.is_word c) s'
      end
  end.

(** Whether the last character of [s] is a word character; [prev_word]
    answers for the empty text. *)
Fixpoint ends_with_word (prev_word : bool) (s : string) : bool :=
  match s with
  | EmptyString => prev_word
  | String c s' => ends_with_word (Char.is_word c) s'
  end.

(** The two flags are never raised together. *)
Definition exclusive (st : sections) : Prop :=
  in_condition st && in_strings st = false.

(** What a sound module table gives: every alias is an identifier, and no
    alias, lower-cased, is itself a module name of the table. *)
Definition alias_is_final (table : Dict.t) (module_alias : string * string) : Prop :=
  identifier (snd module_alias) = true
  /\ Dict.get (Str.lower (snd module_alias)) table = None.

(** ** The remaining methods of the transcoder *)

(** [s.split(sep, 1)]: the text before the first separator and, when there
    is one, the text behind it. *)
Fixpoint split_once (sep : ascii) (s : string) : string * option string :=
  match s with
  | EmptyString => (EmptyString, None)
  | String c s' =>
      if Ascii.eqb c sep then (EmptyString, Some s')
      else let '(before, after) := split_once sep s' in (String c before, after)
  end.

(** [s.replace(old, new, 1)]: the first occurrence only. *)
Fixpoint replace_first (old new s : string) : string :=
  if Str.startswith old s then new +:+ Str.drop (String.length old) s
  else match s with
       | EmptyString => EmptyString
       | String c s' => String c (replace_first old new s')
       end.

(** [re.match(r'(\w+)\s*\(', s)], giving [group(1)]. *)
Definition call_name (s : string) : option string :=
  let '(name, after_name) := Re.span Char.is_word s in
  if Str.nonempty name then
    let '(_, after_blanks) := Re.span Char.is_space after_name in
    match Re.expect "(" after_blanks with
    | Some _ => Some name
    | None => None
    end
  else None.

Definition translate_function_call (self : RuleTranscoder) (function_call : string) : string :=
  if Str.contains "." function_call then
    let parts := split_once "." function_call in
    let module := Str.strip (fst parts) in
    let rest := match snd parts with Some rest => rest | None => EmptyString end in
    let codename_module := translate_module_reference self module in
    let rest :=
      if Str.contains "(" rest then
        match call_name rest with
        | Some func_name =>
            let full_symbol :=
              if Str.nonempty module then module +:+ "_" +:+ func_name else func_name in
            match Dict.get full_symbol (symbol_to_codename self) with
            | Some codename_func =>
                replace_first func_name (Str.last_piece "-" codename_func) rest
            | None => rest
            end
        | None => rest
        end
      else rest in
    codename_module +:+ "." +:+ rest
  else
    match call_name function_call with
    | Some func_name =>
        match Dict.get func_name (symbol_to_codename self) with
        | Some codename =>
            replace_first func_name (Str.last_piece "-" codename) function_call
        | None => function_call
        end
    | None => function_call
    end.

(** [cross_convert_stream]: the mode is chosen from the two format names,
    then the lines are streamed. *)
Definition cross_convert_mode (source_format target_format : string) : string :=
  if String.eqb source_format "yara" && String.eqb target_format "cryptex"
  then "to_cryptex"
  else if String.eqb source_format "cryptex" && String.eqb target_format "yara"
  then "from_cryptex"
  else if String.eqb target_format "cryptex" then "to_cryptex" else "from_cryptex".

Definition cross_convert_stream (self : RuleTranscoder) (input_stream : list string)
  (source_format target_format : string) : list string :=
  stream_transcode_lines self input_stream (cross_convert_mode source_format target_format).

(** ** Further notions for the statements *)

(** The members that [stream_transcode_zip] and [transcode_zip_file] take
    up. *)
Definition rule_files (z : ZipFile) : list string :=
  List.filter is_rule_file (namelist z).

Definition is_processing (event : progress) : bool :=
  match event with processing _ _ _ => true | _ => false end.

Definition is_error (event : progress) : bool :=
  match event with error _ _ => true | _ => false end.

(** The member an event is about. *)
Definition event_file (event : progress) : option string :=
  match event with
  | processing file _ _ => Some file
  | error file _ => Some file
  | _ => None
  end.

(** An entry that [_build_symbol_map] takes into the map. *)
Definition usable (entry : DictionaryEntry) : bool :=
  Str.nonempty (symbol entry) && Str.nonempty (pyro_name entry).

Definition keys (d : Dict.t) : list string := List.map fst d.
Definition values (d : Dict.t) : list string := List.map snd d.

Definition ends_with_newline (line : string) : Prop :=
  exists body, line = body +:+ Str.nl.

(** ** The generator of [stream_transcode_lines], pulled line by line

    Calling [stream_transcode_lines] runs nothing of its body: it gives a
    generator object.  Each [next] resumes the body up to the following
    [yield].  The frame of the suspended call holds the arguments, the two
    flags, what the input iterator has still to give, and the place where
    the body stopped: the lines that the current turn of the loop will
    still yield before the next input line is fetched.  The transcoder is
    held as a value: no method of the class assigns to a field of [self]
    once [__init__] has run. *)
Record generator : Type := Generator {
  gen_self : RuleTranscoder;
  gen_mode : string;
  gen_sections : sections;
  gen_input : list string;
  gen_pending : list string
}.

(** The call itself: both flags are [False], nothing is read yet. *)
Definition stream_transcode_lines_generator (self : RuleTranscoder)
  (input_stream : list string) (mode : string) : generator :=
  Generator self mode no_section input_stream [].

(** The body resumed at the head of the loop: turns that yield nothing
    (the [continue] of a marker line without payload) are passed, up to
    the first [yield] or to the end of the input. *)
Fixpoint generator_resume (self : RuleTranscoder) (mode : string) (st : sections)
  (input_stream : list string) : option string * generator :=
  match input_stream with
  | [] => (None, Generator self mode st [] [])
  | line :: rest =>
      let original_line := Str.rstrip_newlines line in
      let st' := detect_sections st original_line in
      match stream_step self mode st' original_line with
      | [] => generator_resume self mode st' rest
      | yielded :: pending => (Some yielded, Generator self mode st' rest pending)
      end
  end.

(** [next(g)]: the line yielded and the generator afterwards; [None] is
    [StopIteration]. *)
Definition generator_next (g : generator) : option string * generator :=
  match gen_pending g with
  | yielded :: pending =>
      (Some yielded,
       Generator (gen_self g) (gen_mode g) (gen_sections g) (gen_input g) pending)
  | [] => generator_resume (gen_self g) (gen_mode g) (gen_sections g) (gen_input g)
  end.

(** Two runs alive in one program, and the order in which a consumer
    pulls from them. *)
Inductive run : Type := first_run | second_run.

Definition collect (yielded : option string) (lines : list string) : list string :=
  match yielded with
  | Some line => line :: lines
  | None => lines
  end.

(** What each of the two generators has yielded when the consumer has
    pulled as the schedule says. *)
Fixpoint pull_all (schedule : list run) (g1 g2 : generator) : list string * list string :=
  match schedule with
  | [] => ([], [])
  | first_run :: rest =>
      let '(yielded, g1') := generator_next g1 in
      let '(lines1, lines2) := pull_all rest g1' g2 in
      (collect yielded lines1, lines2)
  | second_run :: rest =>
      let '(yielded, g2') := generator_next g2 in
      let '(lines1, lines2) := pull_all rest g1 g2' in
      (lines1, collect yielded lines2)
  end.

(** How often the schedule pulls from a run. *)
Fixpoint pulls (r : run) (schedule : list run) : nat :=
  match schedule with
  | [] => 0
  | r' :: rest =>
      match r, r' with
      | first_run, first_run | second_run, second_run => S (pulls r rest)
      | _, _ => pulls r rest
      end
  end.

(** The lines a generator has still to yield. *)
Definition generator_remaining (g : generator) : list string :=
  gen_pending g ++ stream_from (gen_self g) (gen_mode g) (gen_sections g) (gen_input g).

(** ** Occurrences of a text inside another *)



(** * Properties *)

(** ** Running past an input prefix *)

Lemma stream_from_app self mode st xs ys :
  stream_from self mode st (xs ++ ys)
  = stream_from self mode st xs ++ stream_from self mode (sections_after st xs) ys.
Proof.
  revert st. induction xs as [|x xs IH]; intros st; simpl; [reflexivity|].
  rewrite IH, <- app_assoc. reflexivity.
Qed.

Lemma to_cryptex_lines_app self st xs ys :
  to_cryptex_lines self st (xs ++ ys)
  = to_cryptex_lines self st xs ++ to_cryptex_lines self (sections_past st xs) ys.
Proof.
  revert st. induction xs as [|x xs IH]; intros st; simpl; [reflexivity|].
  rewrite IH, <- app_assoc. reflexivity.
Qed.

Lemma from_cryptex_lines_app self xs ys :
  from_cryptex_lines self (xs ++ ys)
  = from_cryptex_lines self xs ++ from_cryptex_lines self ys.
Proof.
  induction xs as [|x xs IH]; simpl; [reflexivity|].
  rewrite IH, <- app_assoc. reflexivity.
Qed.

(** ** The scenarios of the specification, evaluated *)

(** C1, at a failing input.  The reverse transform applied to the forward
    transform of [sample_rule] does not give [sample_rule] back: the line
    restored from the tag has lost its indentation, and the obfuscated line
    behind the tag is reversed by substitution and kept as well, so the
    condition line comes out twice. *)
Theorem round_trip_fails_on_sample_rule :
  transcode_rule_content scenario_transcoder sample_rule "to_cryptex"
  = Str.join Str.nl
      [ "rule TestRule {";
        "    condition:";
        "    // Original: pe.number_of_sections > 5";
        "        IronCurtain.number_of_sections > 5";
        "}" ]
  /\ transcode_rule_content scenario_transcoder
       (transcode_rule_content scenario_transcoder sample_rule "to_cryptex")
       "from_cryptex"
     = Str.join Str.nl
         [ "rule TestRule {";
           "    condition:";
           "pe.number_of_sections > 5";
           "        pe.number_of_sections > 5";
           "}" ]
  /\ transcode_rule_content scenario_transcoder
       (transcode_rule_content scenario_transcoder sample_rule "to_cryptex")
       "from_cryptex"
     <> sample_rule.
Proof.
  split; [vm_compute; reflexivity|].
  split; [vm_compute; reflexivity|].
  vm_compute. discriminate.
Qed.

(** C2, at the input of scenario A.  In the condition section the line
    [pe.get_section(0) > 5] is tagged, but the second substitution
    translates the alias [IronCurtain] once more, so the line comes out
    with [Module-Ironcurtain], not [IronCurtain]; and the reverse transform
    of the two lines of the scenario gives two lines, not one. *)
Theorem scenario_A_evaluated :
  to_cryptex_lines scenario_transcoder no_section
    [ "    condition:"; "    pe.get_section(0) > 5" ]
  = [ "    condition:";
      "    // Original: pe.get_section(0) > 5";
      "    Module-Ironcurtain.get_section(0) > 5" ]
  /\ from_cryptex_lines scenario_transcoder
       [ "    // Original: pe.get_section(0) > 5";
         "    IronCurtain.get_section(0) > 5" ]
     = [ "pe.get_section(0) > 5"; "    pe.get_section(0) > 5" ].
Proof. split; vm_compute; reflexivity. Qed.

(** C3, at a failing input.  A tag line gives its payload, and the line
    that follows the tag is not discarded: it is reversed by substitution
    and emitted too, by [_transcode_from_cryptex] and by
    [stream_transcode_lines] alike. *)
Theorem line_after_tag_is_kept :
  from_cryptex_lines scenario_transcoder
    [ "    // Original: pe.number_of_sections > 5";
      "        IronCurtain.number_of_sections > 5" ]
  = [ "pe.number_of_sections > 5"; "        pe.number_of_sections > 5" ]
  /\ stream_transcode_lines scenario_transcoder
       [ "    // Original: pe.number_of_sections > 5" +:+ Str.nl;
         "        IronCurtain.number_of_sections > 5" +:+ Str.nl ]
       "from_cryptex"
     = [ "pe.number_of_sections > 5" +:+ Str.nl;
         "    // Original:         IronCurtain.number_of_sections > 5" +:+ Str.nl;
         "        pe.number_of_sections > 5" +:+ Str.nl ].
Proof. split; vm_compute; reflexivity. Qed.

(** C6, at the input of scenario B.  [translate_module_reference] gives
    [Module-Foo] for the unknown module [foo], but the forward transform of
    the condition line [foo.bar(1)] gives [Module-Module-Foo.bar(1)]: the
    second substitution finds [Foo.bar(] in the output of the first and
    prefixes it again. *)
Theorem scenario_B_evaluated :
  translate_module_reference scenario_transcoder "foo" = "Module-Foo"
  /\ to_cryptex_lines scenario_transcoder no_section [ "condition:"; "foo.bar(1)" ]
     = [ "condition:"; "    // Original: foo.bar(1)"; "Module-Module-Foo.bar(1)" ]
  /\ stream_transcode_lines scenario_transcoder [ "condition:"; "foo.bar(1)" ] "to_cryptex"
     = [ "condition:" +:+ Str.nl;
         "    // Original: foo.bar(1)" +:+ Str.nl;
         "Module-Module-Foo.bar(1)" +:+ Str.nl ].
Proof. repeat split; vm_compute; reflexivity. Qed.

(** ** The archive batch processor *)

(** The text written for a member that is read without error. *)
Lemma stream_transcode_member_stored self z mode file_info content :
  zip_read z file_info = Some (Stored content) ->
  stream_transcode_member self z mode file_info
  = inl (Str.concat (stream_transcode_lines self (Str.split Char.newline content) mode)).
Proof. intros H. unfold stream_transcode_member. rewrite H. reflexivity. Qed.

Lemma stream_transcode_member_damaged self z mode file_info exception :
  zip_read z file_info = Some (Damaged exception) ->
  stream_transcode_member self z mode file_info = inr exception.
Proof. intros H. unfold stream_transcode_member. rewrite H. reflexivity. Qed.

(** C5.  For an archive whose rule files are [n1], [n2], [n3] in that
    order, where reading [n2] raises and [n1] and [n3] are read without
    error, [stream_transcode_zip] yields [started] first, one [processing]
    event for [n1], one [error] event naming [n2], goes on to [n3], and ends
    with [completed] carrying the count 2; the output directory has been
    written for [n1] and for [n3]. *)
Theorem partial_failure_containment
  joinpath self zip_path (z : ZipFile) output_dir mode (files : gmap string string)
  n1 n2 n3 content1 content3 exception :
  List.filter is_rule_file (namelist z) = [n1; n2; n3] ->
  zip_read z n1 = Some (Stored content1) ->
  zip_read z n2 = Some (Damaged exception) ->
  zip_read z n3 = Some (Stored content3) ->
  stream_transcode_zip joinpath self zip_path z output_dir mode files
  = ( [ started 3 zip_path;
        processing n1 (joinpath output_dir (path_name n1)) "1/3";
        error n2 exception;
        processing n3 (joinpath output_dir (path_name n3)) "2/3";
        completed 3 2 output_dir ],
      <[ joinpath output_dir (path_name n3) :=
           Str.concat (stream_transcode_lines self (Str.split Char.newline content3) mode) ]>
        (<[ joinpath output_dir (path_name n1) :=
              Str.concat (stream_transcode_lines self (Str.split Char.newline content1) mode) ]>
           files) ).
Proof.
  intros Hlist H1 H2 H3. unfold stream_transcode_zip. rewrite Hlist. simpl.
  rewrite (stream_transcode_member_stored _ _ _ _ _ H1).
  rewrite (stream_transcode_member_damaged _ _ _ _ _ H2).
  rewrite (stream_transcode_member_stored _ _ _ _ _ H3).
  reflexivity.
Qed.

Lemma partial_failure_containment_witness :
  fst (stream_transcode_zip posix_joinpath scenario_transcoder "rules.zip" damaged_archive
         "out" "to_cryptex" ∅)
  = [ started 3 "rules.zip";
      processing "first.yar" "out/first.yar" "1/3";
      error "second.yar" "Bad CRC-32 for file 'second.yar'";
      processing "third.yara" "out/third.yara" "2/3";
      completed 3 2 "out" ].
Proof.
  rewrite (partial_failure_containment posix_joinpath scenario_transcoder "rules.zip"
             damaged_archive
             "out" "to_cryptex" ∅ "first.yar" "second.yar" "third.yara"
             "rule first { condition: true }" "rule third { condition: true }"
             "Bad CRC-32 for file 'second.yar'"
             eq_refl eq_refl eq_refl eq_refl).
  reflexivity.
Defined.

(** Every [processing] event names the output directory joined with the
    base name of its member. *)
Lemma stream_zip_loop_output joinpath self z output_dir mode total_files file_list
  count files :
  Forall (output_is_base_name joinpath output_dir)
    (fst (stream_zip_loop joinpath self z output_dir mode total_files file_list
            count files)).
Proof.
  revert count files.
  induction file_list as [|file_info rest IH]; intros count files; simpl.
  - constructor.
  - destruct (stream_transcode_member self z mode file_info) as [content|message].
    + specialize (IH (S count)
                    (<[joinpath output_dir (path_name file_info) := content]> files)).
      destruct (stream_zip_loop joinpath self z output_dir mode total_files rest (S count) _)
        as [events final].
      simpl in *. constructor; [reflexivity | exact IH].
    + specialize (IH count files).
      destruct (stream_zip_loop joinpath self z output_dir mode total_files rest count files)
        as [events final].
      simpl in *. constructor; [exact I | exact IH].
Qed.

(** The pieces of a text that has a separator in it are at least two. *)
Lemma split_app_sep sep d name :
  exists piece pieces,
    Str.split sep (d +:+ String sep name) = piece :: pieces ++ Str.split sep name.
Proof.
  induction d as [|c d IH]; simpl.
  - rewrite Ascii.eqb_refl. exists EmptyString, []. reflexivity.
  - destruct IH as (piece & pieces & IH). rewrite IH.
    destruct (Ascii.eqb c sep).
    + exists EmptyString, (piece :: pieces). reflexivity.
    + exists (String c piece), pieces. reflexivity.
Qed.

Lemma split_nonempty sep s : Str.split sep s <> [].
Proof.
  destruct s as [|c s]; simpl; [discriminate|].
  destruct (Ascii.eqb c sep); [discriminate|].
  destruct (Str.split sep s); discriminate.
Qed.

Lemma last_behind (xs ys : list string) d :
  ys <> [] -> List.last (xs ++ ys) d = List.last ys d.
Proof.
  intros Hys. induction xs as [|x xs IH]; [reflexivity|].
  simpl. rewrite IH. destruct (xs ++ ys) eqn:E; [|reflexivity].
  destruct xs; [simpl in E; contradiction | discriminate].
Qed.

Lemma last_piece_app_sep sep d name :
  Str.last_piece sep (d +:+ String sep name) = Str.last_piece sep name.
Proof.
  unfold Str.last_piece.
  destruct (split_app_sep sep d name) as (piece & pieces & ->).
  change (piece :: pieces ++ Str.split sep name)
    with ((piece :: pieces) ++ Str.split sep name).
  apply last_behind, split_nonempty.
Qed.

(** [Path(...).name] drops the folders of a member name: two members that
    differ in their folders only have the same base name. *)
Lemma path_name_drops_folder folder name :
  path_name (folder +:+ "/" +:+ name) = path_name name.
Proof. apply (last_piece_app_sep "/" folder name). Qed.

(** ** Tags whose payload cannot be read *)

(** C8, as stated, fails.  The line [    // Original:] carries the marker
    and has no payload; [_transcode_from_cryptex] and
    [stream_transcode_lines] drop it instead of reversing it by
    substitution. *)
Lemma unparsable_tag_is_dropped :
  Str.contains Re.marker "    // Original:" = true
  /\ Re.search_original "    // Original:" = None
  /\ from_cryptex_line scenario_transcoder "    // Original:"
     <> [reverse_substitution scenario_transcoder "    // Original:"]
  /\ from_cryptex_lines scenario_transcoder
       [ "    IronCurtain.x"; "    // Original:"; "    Digest.y" ]
     = [ "    pe.x"; "    hash.y" ]
  /\ stream_transcode_lines scenario_transcoder
       [ "rule r {"; "    // Original:"; "}" ] "from_cryptex"
     = [ "rule r {" +:+ Str.nl; "}" +:+ Str.nl ].
Proof.
  repeat split; try (vm_compute; reflexivity).
  vm_compute. discriminate.
Qed.

(** C8, amended.  A line that carries the marker but has no payload to
    read gives no output line at all; the pass does not stop there: the
    lines before it and after it are transformed as they would be without
    it, in [_transcode_from_cryptex] and in [stream_transcode_lines]. *)
Theorem unparsable_tag_is_skipped self pre line post :
  Str.contains Re.marker line = true ->
  Re.search_original line = None ->
  from_cryptex_lines self (pre ++ line :: post)
  = from_cryptex_lines self pre ++ from_cryptex_lines self post
  /\ forall st raw,
       Str.rstrip_newlines raw = line ->
       stream_from self "from_cryptex" st (pre ++ raw :: post)
       = stream_from self "from_cryptex" st pre
         ++ stream_from self "from_cryptex"
              (detect_sections (sections_after st pre) line) post.
Proof.
  intros Hmarker Hsearch. split.
  - rewrite from_cryptex_lines_app. simpl.
    unfold from_cryptex_line. rewrite Hmarker, Hsearch. reflexivity.
  - intros st raw Hraw. rewrite stream_from_app. simpl. rewrite Hraw.
    unfold stream_step. simpl. rewrite Hmarker, Hsearch. reflexivity.
Qed.

Lemma unparsable_tag_is_skipped_witness :
  from_cryptex_lines scenario_transcoder
    ([ "    IronCurtain.x" ] ++ "    // Original:" :: [ "    Digest.y" ])
  = from_cryptex_lines scenario_transcoder [ "    IronCurtain.x" ]
    ++ from_cryptex_lines scenario_transcoder [ "    Digest.y" ].
Proof.
  exact (proj1 (unparsable_tag_is_skipped scenario_transcoder
                  [ "    IronCurtain.x" ] "    // Original:" [ "    Digest.y" ]
                  eq_refl eq_refl)).
Defined.

(** ** What the output depends on *)

(** The output of the streaming transform depends on the transcoder through
    its two tables only. *)
Lemma translate_condition_line_tables t1 t2 line :
  module_mappings t1 = module_mappings t2 ->
  translate_condition_line t1 line = translate_condition_line t2 line.
Proof.
  intros Hm.
  unfold translate_condition_line, translate_call, translate_field,
    translate_module_reference.
  rewrite Hm. reflexivity.
Qed.

Lemma reverse_substitution_tables t1 t2 line :
  module_mappings t1 = module_mappings t2 ->
  codename_to_symbol t1 = codename_to_symbol t2 ->
  reverse_substitution t1 line = reverse_substitution t2 line.
Proof.
  intros Hm Hc. unfold reverse_substitution, reverse_functions.
  rewrite Hm, Hc. reflexivity.
Qed.

Lemma stream_from_tables t1 t2 mode st input_stream :
  module_mappings t1 = module_mappings t2 ->
  codename_to_symbol t1 = codename_to_symbol t2 ->
  stream_from t1 mode st input_stream = stream_from t2 mode st input_stream.
Proof.
  intros Hm Hc. revert st.
  induction input_stream as [|line rest IH]; intros st; simpl; [reflexivity|].
  rewrite IH. f_equal. unfold stream_step.
  rewrite (translate_condition_line_tables t1 t2 _ Hm).
  rewrite (reverse_substitution_tables t1 t2 _ Hm Hc).
  reflexivity.
Qed.

(** ** Substitution in the reverse transform *)

Lemma length_append (a b : string) :
  String.length (a +:+ b) = String.length a + String.length b.
Proof. induction a as [|c a IH]; simpl; [reflexivity | rewrite IH; reflexivity]. Qed.











(** ** Scanning a line of the condition section *)

Lemma append_cons c (a b : string) : String c a +:+ b = String c (a +:+ b).
Proof. reflexivity. Qed.

Lemma append_nil (b : string) : EmptyString +:+ b = b.
Proof. reflexivity. Qed.

Lemma append_assoc (a b c : string) : (a +:+ b) +:+ c = a +:+ (b +:+ c).
Proof.
  induction a as [|x a IH]; [reflexivity|].
  rewrite !append_cons, IH. reflexivity.
Qed.

(** *** Word runs *)

Lemma span_word_app w r :
  Str.forallb Char.is_word w = true ->
  Re.starts_with_word r = false ->
  Re.span Char.is_word (w +:+ r) = (w, r).
Proof.
  intros Hw Hr. induction w as [|c w IH].
  - rewrite append_nil. destruct r as [|d r]; [reflexivity|].
    simpl in Hr. simpl. rewrite Hr. reflexivity.
  - simpl in Hw. apply andb_true_iff in Hw as [Hc Hw].
    rewrite append_cons. simpl. rewrite Hc, (IH Hw). reflexivity.
Qed.

Lemma span_word_spec s :
  exists w r,
    s = w +:+ r /\ Str.forallb Char.is_word w = true /\ Re.starts_with_word r = false.
Proof.
  induction s as [|c s (w & r & -> & Hw & Hr)].
  - exists EmptyString, EmptyString. repeat split.
  - destruct (Char.is_word c) eqn:Hc.
    + exists (String c w), r. simpl. rewrite Hc, Hw. repeat split. exact Hr.
    + exists EmptyString, (String c (w +:+ r)). simpl. rewrite Hc. repeat split.
Qed.

Lemma span_nonword s :
  Re.starts_with_word s = false -> Re.span Char.is_word s = (EmptyString, s).
Proof. intros H. apply (span_word_app EmptyString s eq_refl H). Qed.

Lemma span_word_nonempty s :
  Re.starts_with_word s = true -> Str.nonempty (fst (Re.span Char.is_word s)) = true.
Proof.
  destruct s as [|c s]; simpl; [discriminate|]. intros ->.
  destruct (Re.span Char.is_word s). reflexivity.
Qed.

(** *** The two patterns at the start of a word and elsewhere *)

Lemma module_field_at_word prev c w r :
  Str.forallb Char.is_word (String c w) = true ->
  Re.starts_with_word r = false ->
  Re.module_field prev (String c w +:+ r)
  = if prev then None else
      match Re.expect "." r with
      | Some after_dot =>
          let '(g2, _) := Re.span Char.is_word after_dot in
          if Str.nonempty g2
          then Some (Re.Found (String c w) g2
                       (String.length (String c w) + 1 + String.length g2))
          else None
      | None => None
      end.
Proof.
  intros Hw Hr. unfold Re.module_field.
  rewrite (span_word_app _ _ Hw Hr).
  simpl in Hw. apply andb_true_iff in Hw as [Hc _].
  unfold Re.word_boundary. rewrite append_cons. simpl. rewrite Hc.
  destruct prev; reflexivity.
Qed.

Lemma module_call_at_word prev c w r :
  Str.forallb Char.is_word (String c w) = true ->
  Re.starts_with_word r = false ->
  Re.module_call prev (String c w +:+ r)
  = if prev then None else
      match Re.expect "." r with
      | Some after_dot =>
          let '(g2, after_g2) := Re.span Char.is_word after_dot in
          if Str.nonempty g2 then
            let '(blanks, after_blanks) := Re.span Char.is_space after_g2 in
            match Re.expect "(" after_blanks with
            | Some _ =>
                Some (Re.Found (String c w) g2
                        (String.length (String c w) + 1 + String.length g2
                         + String.length blanks + 1))
            | None => None
            end
          else None
      | None => None
      end.
Proof.
  intros Hw Hr. unfold Re.module_call.
  rewrite (span_word_app _ _ Hw Hr).
  simpl in Hw. apply andb_true_iff in Hw as [Hc _].
  unfold Re.word_boundary. rewrite append_cons. simpl. rewrite Hc.
  destruct prev; reflexivity.
Qed.

Lemma module_field_needs_word prev s :
  Re.starts_with_word s = false -> Re.module_field prev s = None.
Proof.
  intros H. unfold Re.module_field. rewrite (span_nonword s H). simpl.
  destruct (Re.word_boundary prev s); reflexivity.
Qed.

Lemma module_call_needs_word prev s :
  Re.starts_with_word s = false -> Re.module_call prev s = None.
Proof.
  intros H. unfold Re.module_call. rewrite (span_nonword s H). simpl.
  destruct (Re.word_boundary prev s); reflexivity.
Qed.

Lemma module_field_needs_boundary prev s :
  Re.word_boundary prev s = false -> Re.module_field prev s = None.
Proof. intros H. unfold Re.module_field. rewrite H. reflexivity. Qed.

Lemma module_call_needs_boundary prev s :
  Re.word_boundary prev s = false -> Re.module_call prev s = None.
Proof. intros H. unfold Re.module_call. rewrite H. reflexivity. Qed.

(** *** Scanning with a pattern that starts with [\b\w] *)

Section Scan.
Variable pattern : Re.matcher.
Variable repl : Re.found -> string.
Hypothesis needs_word :
  forall prev s, Re.starts_with_word s = false -> pattern prev s = None.
Hypothesis needs_boundary :
  forall prev s, Re.word_boundary prev s = false -> pattern prev s = None.

(** A character that is not a word character is copied. *)
Lemma sub_from_nonword prev c s :
  Char.is_word c = false ->
  Re.sub_from pattern repl prev 0 (String c s)
  = String c (Re.sub_from pattern repl false 0 s).
Proof.
  intros Hc. simpl. rewrite needs_word by (simpl; exact Hc).
  rewrite Hc. reflexivity.
Qed.

(** Inside a word nothing matches: the rest of the word is copied. *)
Lemma sub_from_inside_word w rest :
  Str.forallb Char.is_word w = true ->
  Re.sub_from pattern repl true 0 (w +:+ rest)
  = w +:+ Re.sub_from pattern repl true 0 rest.
Proof.
  induction w as [|c w IH]; intros Hw; [reflexivity|].
  simpl in Hw. apply andb_true_iff in Hw as [Hc Hw].
  rewrite !append_cons. simpl.
  rewrite needs_boundary by (unfold Re.word_boundary; simpl; rewrite Hc; reflexivity).
  rewrite Hc, (IH Hw). reflexivity.
Qed.

(** The characters of a match are passed over. *)
Lemma sub_from_skip u rest prev :
  Re.sub_from pattern repl prev (String.length u) (u +:+ rest)
  = Re.sub_from pattern repl (ends_with_word prev u) 0 rest.
Proof.
  revert prev. induction u as [|c u IH]; intros prev.
  - rewrite append_nil. destruct rest; reflexivity.
  - rewrite append_cons. simpl. apply IH.
Qed.

Lemma sub_from_match prev c u rest m :
  pattern prev (String c u +:+ rest) = Some m ->
  Re.width m = String.length (String c u) ->
  Re.sub_from pattern repl prev 0 (String c u +:+ rest)
  = repl m +:+ Re.sub_from pattern repl (ends_with_word prev (String c u)) 0 rest.
Proof.
  intros Hm Hwidth. rewrite append_cons in *. simpl.
  rewrite Hm, Hwidth. simpl. rewrite Nat.sub_0_r, sub_from_skip. reflexivity.
Qed.

(** What is put out for a text that does not start with a word character
    does not start with one either. *)
Lemma sub_from_keeps_nonword prev s :
  Re.starts_with_word s = false ->
  Re.starts_with_word (Re.sub_from pattern repl prev 0 s) = false.
Proof.
  destruct s as [|c s]; intros H; [reflexivity|].
  simpl in H. rewrite (sub_from_nonword prev c s H). simpl. exact H.
Qed.
End Scan.

(** *** Words in front of a character that is no word character *)

Lemma word_prefix_unique a b c d x y :
  Str.forallb Char.is_word a = true ->
  Str.forallb Char.is_word b = true ->
  Char.is_word c = false ->
  Char.is_word d = false ->
  a +:+ String c x = b +:+ String d y ->
  a = b /\ c = d /\ x = y.
Proof.
  intros Ha Hb Hc Hd. revert b Hb.
  induction a as [|e a IH]; intros [|e' b] Hb Heq;
    rewrite ?append_nil, ?append_cons in Heq; injection Heq as He Heq.
  - subst. repeat split.
  - subst. simpl in Hb. rewrite Hc in Hb. discriminate.
  - subst. simpl in Ha. rewrite Hd in Ha. discriminate.
  - subst. simpl in Ha, Hb.
    apply andb_true_iff in Ha as [_ Ha]. apply andb_true_iff in Hb as [_ Hb].
    destruct (IH Ha b Hb Heq) as (-> & -> & ->). repeat split.
Qed.

Lemma module_prefix_differs tail w rest :
  Str.forallb Char.is_word w = true ->
  "Module-" +:+ tail <> w +:+ String "." rest.
Proof.
  intros Hw Heq.
  change ("Module-" +:+ tail) with ("Module" +:+ String "-" tail) in Heq.
  apply word_prefix_unique in Heq as (_ & Hneq & _);
    [discriminate | reflexivity | exact Hw | reflexivity | reflexivity].
Qed.

Lemma forallb_append p (a b : string) :
  Str.forallb p (a +:+ b) = Str.forallb p a && Str.forallb p b.
Proof.
  induction a as [|c a IH]; [reflexivity|].
  rewrite append_cons. simpl. rewrite IH, andb_assoc. reflexivity.
Qed.

Lemma ends_with_word_append prev (a b : string) :
  ends_with_word prev (a +:+ b) = ends_with_word (ends_with_word prev a) b.
Proof.
  revert prev. induction a as [|c a IH]; intros prev; [reflexivity|].
  rewrite append_cons. simpl. apply IH.
Qed.

Lemma ends_with_word_identifier prev g :
  identifier g = true -> ends_with_word prev g = true.
Proof.
  unfold identifier. intros H. apply andb_true_iff in H as [Hne Hw].
  revert prev. induction g as [|c g IH]; intros prev; [discriminate|].
  simpl in Hw. apply andb_true_iff in Hw as [Hc Hw]. simpl.
  destruct g as [|d g]; [exact Hc|]. apply IH; [reflexivity | exact Hw].
Qed.

Lemma identifier_starts_with_word g rest :
  identifier g = true -> Re.starts_with_word (g +:+ rest) = true.
Proof.
  unfold identifier. destruct g as [|c g]; [discriminate|]. simpl.
  intros H. apply andb_true_iff in H as [H _]. exact H.
Qed.

(** *** What a match of [\b(\w+)\.(\w+)] looks like *)

Lemma module_field_Some prev s m :
  Re.module_field prev s = Some m ->
  prev = false
  /\ exists c w r,
       Re.group1 m = String c w
       /\ s = String c w +:+ String "." (Re.group2 m +:+ r)
       /\ Str.forallb Char.is_word (String c w) = true
       /\ identifier (Re.group2 m) = true
       /\ Re.starts_with_word r = false
       /\ Re.width m = String.length (String c w) + 1 + String.length (Re.group2 m).
Proof.
  destruct (span_word_spec s) as (w & r0 & -> & Hw & Hr0).
  destruct w as [|c w].
  { rewrite append_nil, (module_field_needs_word prev r0 Hr0). discriminate. }
  rewrite (module_field_at_word prev c w r0 Hw Hr0).
  destruct prev; [discriminate|].
  destruct r0 as [|d r1]; [discriminate|]. simpl.
  destruct (Ascii.eqb d ".") eqn:Hd; [|discriminate].
  apply Ascii.eqb_eq in Hd as ->.
  destruct (span_word_spec r1) as (g2 & r & -> & Hg2 & Hr).
  rewrite (span_word_app g2 r Hg2 Hr).
  destruct g2 as [|y g2]; [discriminate|]. simpl.
  intros [= <-]. split; [reflexivity|].
  exists c, w, r. simpl. repeat split; assumption.
Qed.

(** A dotted pair of identifiers at a word boundary is matched. *)
Lemma module_field_on_token c w f s :
  Str.forallb Char.is_word (String c w) = true ->
  identifier f = true ->
  exists m, Re.module_field false (String c w +:+ String "." (f +:+ s)) = Some m.
Proof.
  intros Hw Hf.
  rewrite (module_field_at_word false c w (String "." (f +:+ s)) Hw eq_refl). simpl.
  pose proof (span_word_nonempty (f +:+ s) (identifier_starts_with_word f s Hf)) as Hne.
  destruct (Re.span Char.is_word (f +:+ s)) as [g2 rest]. simpl in Hne.
  rewrite Hne. eexists. reflexivity.
Qed.

(** Wherever a dotted pair of identifiers stands in a line, the first
    pattern matches somewhere in the line. *)
Lemma has_module_field_intro m f s :
  identifier m = true ->
  identifier f = true ->
  forall p prev,
    has_module_field prev (p +:+ m +:+ String "." (f +:+ s)) = true
    \/ (prev = true /\ Str.forallb Char.is_word p = true).
Proof.
  intros Hm Hf.
  assert (Hword : forall p prev,
             Str.forallb Char.is_word p = true ->
             has_module_field prev (p +:+ m +:+ String "." (f +:+ s)) = true
             \/ prev = true).
  { intros p [|] Hp; [right; reflexivity | left].
    unfold identifier in Hm. apply andb_true_iff in Hm as [Hne Hm].
    rewrite <- append_assoc.
    assert (Hpm : Str.forallb Char.is_word (p +:+ m) = true)
      by (rewrite forallb_append, Hp, Hm; reflexivity).
    destruct (p +:+ m) as [|c g] eqn:Hg.
    { destruct p; [|discriminate]. rewrite append_nil in Hg. subst m. discriminate. }
    destruct (module_field_on_token c g f s Hpm Hf) as [found Hfound].
    rewrite append_cons in *. simpl. rewrite Hfound. reflexivity. }
  induction p as [|c p IH]; intros prev.
  - destruct (Hword EmptyString prev eq_refl) as [H|H].
    + left. exact H.
    + right. split; [exact H | reflexivity].
  - destruct (IH (Char.is_word c)) as [H|[Hc Hp]].
    + left. rewrite append_cons. simpl. rewrite H.
      destruct (Re.module_field prev _); reflexivity.
    + destruct (Hword (String c p) prev) as [H|H].
      * simpl. rewrite Hc, Hp. reflexivity.
      * left. exact H.
      * right. split; [exact H|]. simpl. rewrite Hc, Hp. reflexivity.
Qed.

(** *** The second substitution on the output of the first *)

(** Where the first pattern does not match, the second does not match the
    output of the first substitution either. *)
Lemma no_field_no_call repl prev c rest :
  Re.module_field prev (String c rest) = None ->
  Re.module_call prev
    (String c (Re.sub_from Re.module_field repl (Char.is_word c) 0 rest)) = None.
Proof.
  intros Hnone.
  destruct (Re.word_boundary prev (String c rest)) eqn:Hb;
    [|apply module_call_needs_boundary; exact Hb].
  destruct (Char.is_word c) eqn:Hc;
    [|apply module_call_needs_word; simpl; exact Hc].
  unfold Re.word_boundary in Hb. simpl in Hb. rewrite Hc in Hb.
  destruct prev; [discriminate|]. clear Hb.
  destruct (span_word_spec rest) as (w & r & -> & Hw & Hr).
  assert (Hcw : Str.forallb Char.is_word (String c w) = true)
    by (simpl; rewrite Hc, Hw; reflexivity).
  rewrite <- append_cons, (module_field_at_word false c w r Hcw Hr) in Hnone.
  rewrite (sub_from_inside_word _ repl module_field_needs_boundary w r Hw).
  rewrite <- append_cons, (module_call_at_word false c w _ Hcw)
    by (apply sub_from_keeps_nonword; [apply module_field_needs_word | exact Hr]).
  destruct r as [|d r]; [reflexivity|].
  simpl in Hr. rewrite (sub_from_nonword _ repl module_field_needs_word true d r Hr).
  simpl in *. destruct (Ascii.eqb d "."); [|reflexivity].
  assert (Hstart : Re.starts_with_word r = false).
  { destruct (Re.starts_with_word r) eqn:E; [|reflexivity].
    apply span_word_nonempty in E.
    destruct (Re.span Char.is_word r) as [g2 after]. simpl in E.
    rewrite E in Hnone. discriminate. }
  rewrite (span_nonword _ (sub_from_keeps_nonword _ repl module_field_needs_word
                             false r Hstart)).
  reflexivity.
Qed.

(** The module names of a table and its aliases. *)
Lemma dict_get_In k v (d : Dict.t) : Dict.get k d = Some v -> exists k', In (k', v) d.
Proof.
  induction d as [|[k' v'] d IH]; simpl; [discriminate|].
  destruct (String.eqb k' k).
  - intros [= ->]. exists k'. left. reflexivity.
  - intros H. destruct (IH H) as [k'' Hin]. exists k''. right. exact Hin.
Qed.

Lemma module_mappings_final entries :
  Forall (alias_is_final (module_mappings (RuleTranscoder_init entries)))
    (module_mappings (RuleTranscoder_init entries)).
Proof. repeat constructor. Qed.

(** The fallback prefix is copied by the second substitution. *)
Lemma call_scan_module_prefix repl tail :
  Re.sub_from Re.module_call repl false 0 ("Module-" +:+ tail)
  = "Module-" +:+ Re.sub_from Re.module_call repl false 0 tail.
Proof.
  change ("Module-" +:+ tail) with (String "M" ("odule" +:+ String "-" tail)) at 1.
  simpl Re.sub_from. reflexivity.
Qed.

(** In the condition section a line that holds a dotted pair of identifiers
    does not come out as it went in. *)
Lemma translation_changes_line self :
  Forall (alias_is_final (module_mappings self)) (module_mappings self) ->
  forall line prev,
    has_module_field prev line = true ->
    Re.sub_from Re.module_call (translate_call self) prev 0
      (Re.sub_from Re.module_field (translate_field self) prev 0 line)
    <> line.
Proof.
  intros Htable. induction line as [|c rest IH]; intros prev Hhas; [discriminate|].
  simpl in Hhas.
  destruct (Re.module_field prev (String c rest)) as [m|] eqn:Hfield.
  - clear Hhas IH.
    destruct (module_field_Some _ _ _ Hfield)
      as (-> & c' & w & r & Hg1 & Hline & Hw & Hg2 & Hr & Hwidth).
    assert (Hc : c' = c) by (rewrite append_cons in Hline; congruence). subst c'.
    assert (Hshape : String c rest = String c (w +:+ String "." (Re.group2 m)) +:+ r).
    { rewrite Hline, !append_cons, append_assoc, append_cons. reflexivity. }
    rewrite Hshape in Hfield. rewrite Hshape at 1.
    rewrite (sub_from_match _ _ _ _ _ _ _ Hfield)
      by (rewrite Hwidth; simpl; rewrite length_append; simpl; lia).
    rewrite <- append_cons, ends_with_word_append.
    change (String "." (Re.group2 m)) with (String "." EmptyString +:+ Re.group2 m).
    rewrite ends_with_word_append, (ends_with_word_identifier _ _ Hg2).
    pose proof (sub_from_keeps_nonword _ (translate_field self) module_field_needs_word
                  true r Hr) as Hout.
    set (out := Re.sub_from Re.module_field (translate_field self) true 0 r) in *.
    unfold translate_field, translate_module_reference. rewrite Hg1.
    destruct (Dict.get (Str.lower (String c w)) (module_mappings self))
      as [codename|] eqn:Hget.
    + destruct (dict_get_In _ _ _ Hget) as [k Hin].
      destruct (proj1 (List.Forall_forall _ _) Htable _ Hin) as [Hident Hfinal].
      simpl in Hident, Hfinal.
      assert (Hword := Hident). unfold identifier in Hword.
      apply andb_true_iff in Hword as [Hne Hword].
      destruct codename as [|a0 a]; [discriminate|].
      rewrite !append_assoc.
      change ("." +:+ Re.group2 m +:+ out) with (String "." (Re.group2 m +:+ out)).
      rewrite Hline.
      destruct (Re.module_call false (String a0 a +:+ String "." (Re.group2 m +:+ out)))
        as [m2|] eqn:Hcall.
      * assert (Hm2 : Re.group1 m2 = String a0 a).
        { rewrite (module_call_at_word false a0 a
                     (String "." (Re.group2 m +:+ out)) Hword eq_refl) in Hcall.
          simpl in Hcall.
          destruct (Re.span Char.is_word (Re.group2 m +:+ out)) as [g2 after_g2].
          destruct (Str.nonempty g2); [|discriminate].
          destruct (Re.span Char.is_space after_g2) as [blanks after_blanks].
          destruct (Re.expect "(" after_blanks); [|discriminate].
          injection Hcall as <-. reflexivity. }
        rewrite append_cons in Hcall. rewrite (append_cons a0). simpl Re.sub_from.
        rewrite Hcall.
        unfold translate_call, translate_module_reference.
        rewrite Hm2, Hfinal, !append_assoc.
        apply module_prefix_differs. exact Hw.
      * rewrite append_cons in Hcall. rewrite (append_cons a0). simpl Re.sub_from.
        rewrite Hcall.
        simpl in Hword. apply andb_true_iff in Hword as [Ha0 Hword]. rewrite Ha0.
        rewrite (sub_from_inside_word _ _ module_call_needs_boundary a _ Hword).
        rewrite (sub_from_nonword _ _ module_call_needs_word true "." _ eq_refl).
        rewrite <- append_cons. intros Heq.
        apply word_prefix_unique in Heq as (Heq & _ & _);
          [|simpl; rewrite Ha0, Hword; reflexivity | exact Hw | reflexivity..].
        rewrite <- Heq, Hfinal in Hget. discriminate.
    + rewrite Hline, !append_assoc, call_scan_module_prefix.
      apply module_prefix_differs. exact Hw.
  - simpl. rewrite Hfield.
    simpl. rewrite (no_field_no_call (translate_field self) prev c rest Hfield).
    intros [= Heq]. exact (IH _ Hhas Heq).
Qed.

(** *** The section flags *)

Lemma detect_sections_exclusive st line :
  exclusive st -> exclusive (detect_sections st line).
Proof.
  intros H. unfold detect_sections.
  destruct (Re.section_header "condition:" line); [reflexivity|].
  destruct (Re.section_header "strings:" line); [reflexivity|].
  destruct (Re.meta_or_rule_header line); [reflexivity | exact H].
Qed.

Lemma sections_past_exclusive lines :
  forall st, exclusive st -> exclusive (sections_past st lines).
Proof.
  induction lines as [|line rest IH]; intros st H; [exact H|].
  apply IH, detect_sections_exclusive, H.
Qed.

Lemma sections_past_snoc st lines line :
  sections_past st (lines ++ [line]) = detect_sections (sections_past st lines) line.
Proof. unfold sections_past. rewrite fold_left_app. reflexivity. Qed.

(** * Further properties of the transcoder *)

(** ** Lines without a dot *)

Lemma contains_tail sub c s :
  Str.contains sub (String c s) = false -> Str.contains sub s = false.
Proof. simpl. intros H. apply orb_false_iff in H as [_ H]. exact H. Qed.

Lemma contains_append_r sub (a b : string) :
  Str.contains sub (a +:+ b) = false -> Str.contains sub b = false.
Proof.
  induction a as [|c a IH]; [rewrite append_nil; auto|].
  rewrite append_cons. intros H. apply IH, (contains_tail _ _ _ H).
Qed.

Lemma no_dot_expect s :
  Str.contains "." s = false -> Re.expect "." s = None.
Proof.
  destruct s as [|d s]; [reflexivity|].
  change (Str.contains "." (String d s))
    with (Ascii.eqb "." d && true || Str.contains "." s).
  change (Re.expect "." (String d s)) with (if Ascii.eqb d "." then Some s else None).
  intros H. apply orb_false_iff in H as [H _]. rewrite andb_true_r in H.
  rewrite Ascii.eqb_sym, H. reflexivity.
Qed.

Lemma module_field_needs_dot prev s :
  Str.contains "." s = false -> Re.module_field prev s = None.
Proof.
  intros H. destruct (span_word_spec s) as (w & r & -> & Hw & Hr).
  destruct w as [|c w]; [apply module_field_needs_word; exact Hr|].
  rewrite (module_field_at_word prev c w r Hw Hr).
  rewrite (no_dot_expect r (contains_append_r _ _ _ H)).
  destruct prev; reflexivity.
Qed.

Lemma module_call_needs_dot prev s :
  Str.contains "." s = false -> Re.module_call prev s = None.
Proof.
  intros H. destruct (span_word_spec s) as (w & r & -> & Hw & Hr).
  destruct w as [|c w]; [apply module_call_needs_word; exact Hr|].
  rewrite (module_call_at_word prev c w r Hw Hr).
  rewrite (no_dot_expect r (contains_append_r _ _ _ H)).
  destruct prev; reflexivity.
Qed.

Lemma sub_from_without_dot pattern repl :
  (forall prev s, Str.contains "." s = false -> pattern prev s = None) ->
  forall s prev,
    Str.contains "." s = false -> Re.sub_from pattern repl prev 0 s = s.
Proof.
  intros Hpattern. induction s as [|c s IH]; intros prev H; [reflexivity|].
  simpl. rewrite (Hpattern prev _ H), (IH _ (contains_tail _ _ _ H)). reflexivity.
Qed.

Lemma translate_condition_line_without_dot self line :
  Str.contains "." line = false -> translate_condition_line self line = line.
Proof.
  intros H. unfold translate_condition_line, Re.sub.
  rewrite (sub_from_without_dot _ _ module_field_needs_dot line false H).
  apply sub_from_without_dot; [apply module_call_needs_dot | exact H].
Qed.

(** X1.  A line in which no dot occurs is passed on as it is and without a
    tag, in the condition section too and whatever the dictionary: by
    [_transcode_to_cryptex] as the line itself, by [stream_transcode_lines]
    as the line and a line feed. *)
Theorem dotless_line_is_kept self st line :
  Str.contains "." line = false ->
  to_cryptex_line self st line = [line]
  /\ stream_step self "to_cryptex" st line = [line +:+ Str.nl].
Proof.
  intros H. unfold to_cryptex_line, stream_step, stream_emit, changed.
  rewrite (translate_condition_line_without_dot self line H).
  change (String.eqb "to_cryptex" "to_cryptex") with true.
  change (String.eqb "to_cryptex" "from_cryptex") with false.
  destruct (in_condition st); cbn [andb]; rewrite !String.eqb_refl;
    split; reflexivity.
Qed.

Lemma dotless_line_is_kept_witness :
  to_cryptex_line scenario_transcoder (Sections true false) "        $a or $b" 
  = [ "        $a or $b" ].
Proof.
  exact (proj1 (dotless_line_is_kept scenario_transcoder (Sections true false)
                  "        $a or $b" eq_refl)).
Defined.

(** ** Blanks and comment lines *)

Lemma space_not_word c : Char.is_space c = true -> Char.is_word c = false.
Proof.
  destruct c as [[] [] [] [] [] [] [] []]; vm_compute; intros H;
    first [reflexivity | discriminate H].
Qed.

Lemma lstrip_spec s :
  exists blanks,
    s = blanks +:+ Str.lstrip s /\ Str.forallb Char.is_space blanks = true.
Proof.
  induction s as [|c s (blanks & Hs & Hblanks)].
  - exists EmptyString. split; reflexivity.
  - simpl. destruct (Char.is_space c) eqn:Hc.
    + exists (String c blanks). rewrite append_cons, <- Hs. simpl.
      rewrite Hc, Hblanks. split; reflexivity.
    + exists EmptyString. split; reflexivity.
Qed.

Lemma lstrip_head s d r : Str.lstrip s = String d r -> Char.is_space d = false.
Proof.
  induction s as [|c s IH]; [discriminate|]. simpl.
  destruct (Char.is_space c) eqn:Hc; [exact IH|].
  intros [= -> _]. exact Hc.
Qed.

Lemma lstrip_blanks blanks r :
  Str.forallb Char.is_space blanks = true -> Str.lstrip (blanks +:+ r) = Str.lstrip r.
Proof.
  induction blanks as [|c blanks IH]; intros H; [reflexivity|].
  simpl in H. apply andb_true_iff in H as [Hc H].
  rewrite append_cons. simpl. rewrite Hc. apply IH, H.
Qed.

Lemma rstrip_cons c s :
  Char.is_space c = false -> Str.rstrip (String c s) = String c (Str.rstrip s).
Proof. intros Hc. simpl. rewrite Hc. destruct (Str.rstrip s); reflexivity. Qed.

(** What stands in front of the first word character is copied by a
    substitution whose pattern starts with a word character. *)
Lemma sub_from_blanks pattern repl :
  (forall prev s, Re.starts_with_word s = false -> pattern prev s = None) ->
  forall blanks rest prev,
    Str.forallb Char.is_space blanks = true ->
    exists prev',
      Re.sub_from pattern repl prev 0 (blanks +:+ rest)
      = blanks +:+ Re.sub_from pattern repl prev' 0 rest.
Proof.
  intros Hpattern. induction blanks as [|c blanks IH]; intros rest prev H.
  - exists prev. reflexivity.
  - simpl in H. apply andb_true_iff in H as [Hc H].
    destruct (IH rest false H) as [prev' IH'].
    exists prev'. rewrite !append_cons.
    rewrite (sub_from_nonword _ _ Hpattern prev c _ (space_not_word c Hc)), IH'.
    reflexivity.
Qed.

Lemma startswith_cons a p b s :
  Str.startswith (String a p) (String b s) = Ascii.eqb a b && Str.startswith p s.
Proof. reflexivity. Qed.

Lemma startswith_two_slashes s :
  Str.startswith "//" s = true -> exists body, s = String "/" (String "/" body).
Proof.
  destruct s as [|c1 [|c2 body]]; try discriminate.
  - rewrite startswith_cons. intros H. apply andb_true_iff in H as [_ H].
    discriminate H.
  - rewrite !startswith_cons. intros H.
    apply andb_true_iff in H as [H1 H]. apply andb_true_iff in H as [H2 _].
    apply Ascii.eqb_eq in H1, H2. subst. exists body. reflexivity.
Qed.

(** A comment line stays a comment line under the two substitutions. *)
Lemma translated_comment_is_comment self line :
  Str.startswith "//" (Str.lstrip line) = true ->
  Str.startswith "//" (Str.strip (translate_condition_line self line)) = true.
Proof.
  intros Hcomment.
  destruct (lstrip_spec line) as (blanks & Hline & Hblanks).
  destruct (startswith_two_slashes _ Hcomment) as [body Hbody].
  rewrite Hbody in Hline. rewrite Hline. unfold translate_condition_line, Re.sub.
  destruct (sub_from_blanks _ (translate_field self) module_field_needs_word
              blanks (String "/" (String "/" body)) false Hblanks) as [p1 ->].
  rewrite !(sub_from_nonword _ _ module_field_needs_word _ "/" _ eq_refl).
  destruct (sub_from_blanks _ (translate_call self) module_call_needs_word
              blanks (String "/" (String "/"
                (Re.sub_from Re.module_field (translate_field self) false 0 body)))
              false Hblanks) as [p2 ->].
  rewrite !(sub_from_nonword _ _ module_call_needs_word _ "/" _ eq_refl).
  unfold Str.strip. rewrite (lstrip_blanks _ _ Hblanks).
  change (Str.lstrip (String "/" ?x)) with (String "/" x).
  rewrite !rstrip_cons by reflexivity. reflexivity.
Qed.

(** X2.  A comment line (two slashes after the leading blanks) never gets
    a tag: it gives exactly one output line.  In the condition section this
    line is the translated comment, so for a transcoder with the standard
    module table a comment that holds a dotted pair of identifiers comes
    out changed, with nothing that records its original text. *)
Theorem comment_line_is_never_tagged entries st line :
  Str.startswith "//" (Str.lstrip line) = true ->
  to_cryptex_line (RuleTranscoder_init entries) st line
  = [if in_condition st
     then translate_condition_line (RuleTranscoder_init entries) line
     else line]
  /\ stream_step (RuleTranscoder_init entries) "to_cryptex" st line
     = [(if in_condition st
         then translate_condition_line (RuleTranscoder_init entries) line
         else line) +:+ Str.nl]
  /\ (in_condition st = true ->
      forall p m f s,
        identifier m = true -> identifier f = true ->
        line = p +:+ m +:+ "." +:+ f +:+ s ->
        translate_condition_line (RuleTranscoder_init entries) line <> line).
Proof.
  intros Hcomment. split; [|split].
  - unfold to_cryptex_line, changed. destruct (in_condition st).
    + rewrite (translated_comment_is_comment _ line Hcomment), andb_false_r.
      reflexivity.
    + rewrite String.eqb_refl. reflexivity.
  - unfold stream_step, stream_emit, changed.
    change (String.eqb "to_cryptex" "to_cryptex") with true.
    change (String.eqb "to_cryptex" "from_cryptex") with false.
    destruct (in_condition st); cbn [andb].
    + rewrite (translated_comment_is_comment _ line Hcomment), andb_false_r.
      reflexivity.
    + rewrite String.eqb_refl. reflexivity.
  - intros _ p m f s Hm Hf Hline.
    apply translation_changes_line; [apply module_mappings_final|].
    destruct (has_module_field_intro m f s Hm Hf p false) as [H|[H _]];
      [|discriminate].
    rewrite Hline. exact H.
Qed.

Lemma comment_line_is_never_tagged_witness :
  to_cryptex_line (RuleTranscoder_init []) (Sections true false)
    "    // checks pe.sections"
  = [ "    // checks IronCurtain.sections" ].
Proof.
  exact (proj1 (comment_line_is_never_tagged [] (Sections true false)
                  "    // checks pe.sections" eq_refl)).
Defined.

(** ** What a tag gives back *)

Lemma contains_nl_cons c s :
  Str.contains Str.nl (String c s)
  = Ascii.eqb Char.newline c && true || Str.contains Str.nl s.
Proof. reflexivity. Qed.

Lemma no_newline_forallb s :
  Str.contains Str.nl s = false -> Str.forallb Re.not_newline s = true.
Proof.
  induction s as [|c s IH]; [reflexivity|].
  rewrite contains_nl_cons. intros H. apply orb_false_iff in H as [Hc H].
  rewrite andb_true_r in Hc. simpl. rewrite (IH H), andb_true_r.
  unfold Re.not_newline. rewrite Ascii.eqb_sym, Hc. reflexivity.
Qed.

Lemma span_all p s : Str.forallb p s = true -> Re.span p s = (s, EmptyString).
Proof.
  induction s as [|c s IH]; [reflexivity|]. simpl. intros H.
  apply andb_true_iff in H as [Hc H]. rewrite Hc, (IH H). reflexivity.
Qed.

Lemma dot_plus_line d r :
  Str.forallb Re.not_newline (String d r) = true ->
  Re.dot_plus (String d r) = Some (String d r).
Proof. intros H. unfold Re.dot_plus. rewrite (span_all _ _ H). reflexivity. Qed.

Lemma forallb_lstrip p s :
  Str.forallb p s = true -> Str.forallb p (Str.lstrip s) = true.
Proof.
  induction s as [|c s IH]; [reflexivity|]. intros H. simpl.
  destruct (Char.is_space c); [|exact H].
  simpl in H. apply andb_true_iff in H as [_ H]. apply IH, H.
Qed.

Lemma forallb_rstrip p s :
  Str.forallb p s = true -> Str.forallb p (Str.rstrip s) = true.
Proof.
  induction s as [|c s IH]; [reflexivity|]. intros H.
  simpl in H. apply andb_true_iff in H as [Hc H]. specialize (IH H). simpl.
  destruct (Str.rstrip s) as [|e r].
  - destruct (Char.is_space c); [reflexivity|]. simpl. rewrite Hc. reflexivity.
  - cbn [Str.forallb]. rewrite Hc. exact IH.
Qed.

(** [\s*(.+)] on a line: the blanks in front are passed over, the rest of
    the line is the payload. *)
Lemma blanks_then_payload_line s d r :
  Str.forallb Re.not_newline s = true ->
  Str.lstrip s = String d r ->
  Re.blanks_then_payload s = Some (String d r).
Proof.
  induction s as [|c s IH]; [discriminate|]. intros Hline Hstrip.
  cbn [Re.blanks_then_payload]. simpl in Hstrip.
  destruct (Char.is_space c).
  - simpl in Hline. apply andb_true_iff in Hline as [_ Hline].
    rewrite (IH Hline Hstrip). reflexivity.
  - rewrite <- Hstrip. apply dot_plus_line, Hline.
Qed.

Lemma search_original_tag x payload :
  Re.blanks_then_payload (String " " x) = Some payload ->
  Re.search_original ("    // Original: " +:+ x) = Some payload.
Proof.
  intros H.
  change (Re.search_original ("    // Original: " +:+ x))
    with (match Re.blanks_then_payload (String " " x) with
          | Some p => Some p
          | None => Re.search_original ("/ Original: " +:+ x)
          end).
  rewrite H. reflexivity.
Qed.

Lemma tag_has_marker x : Str.contains Re.marker ("    // Original: " +:+ x) = true.
Proof. reflexivity. Qed.

Lemma blank_line_has_no_dot s :
  Str.lstrip s = EmptyString -> Str.contains "." s = false.
Proof.
  induction s as [|c s IH]; [reflexivity|]. simpl Str.lstrip.
  destruct (Char.is_space c) eqn:Hc; [|discriminate]. intros H.
  change (Str.contains "." (String c s))
    with (Ascii.eqb "." c && true || Str.contains "." s).
  rewrite (IH H), orb_false_r, andb_true_r.
  destruct (Ascii.eqb "." c) eqn:E; [|reflexivity].
  apply Ascii.eqb_eq in E. subst c. discriminate Hc.
Qed.

Lemma changed_line_is_not_blank self line :
  changed (translate_condition_line self line) line = true ->
  exists d r, Str.lstrip line = String d r.
Proof.
  intros H. destruct (Str.lstrip line) as [|d r] eqn:E; [|eauto].
  unfold changed in H.
  rewrite (translate_condition_line_without_dot self line
             (blank_line_has_no_dot line E)), String.eqb_refl in H.
  discriminate H.
Qed.

(** X3.  When the forward transform tags a line of the condition section,
    the tag alone gives the line back up to blanks: the reverse transform
    turns the tag of [_transcode_to_cryptex] into the line stripped at both
    ends, and the tag of [stream_transcode_lines] into the line stripped on
    the left.  The indentation is not restored. *)
Theorem tag_restores_line_without_indentation self st st' line :
  Str.contains Str.nl line = false ->
  in_condition st = true ->
  changed (translate_condition_line self line) line = true ->
  (exists tag,
     to_cryptex_line self st line = [tag; translate_condition_line self line]
     /\ from_cryptex_line self tag = [Str.strip line])
  /\ (exists tag,
        stream_step self "to_cryptex" st line
        = [tag +:+ Str.nl; translate_condition_line self line +:+ Str.nl]
        /\ stream_step self "from_cryptex" st' tag = [Str.lstrip line +:+ Str.nl]).
Proof.
  intros Hline Hcondition Hchanged.
  destruct (changed_line_is_not_blank self line Hchanged) as (d & r & Hstrip).
  pose proof (no_newline_forallb line Hline) as Hnl.
  pose proof (lstrip_head line d r Hstrip) as Hd.
  split.
  - exists ("    // Original: " +:+ Str.strip line). split.
    + unfold to_cryptex_line. rewrite Hcondition, Hchanged. reflexivity.
    + unfold from_cryptex_line. rewrite tag_has_marker.
      assert (Hpayload : Re.blanks_then_payload (String " " (Str.strip line))
                         = Some (Str.strip line)).
      { unfold Str.strip. rewrite Hstrip, (rstrip_cons d r Hd).
        apply blanks_then_payload_line.
        - change (Str.forallb Re.not_newline (String " " (String d (Str.rstrip r))))
            with (Str.forallb Re.not_newline (String d (Str.rstrip r))).
          rewrite <- (rstrip_cons d r Hd), <- Hstrip.
          apply forallb_rstrip, forallb_lstrip, Hnl.
        - simpl. rewrite Hd. reflexivity. }
      rewrite (search_original_tag _ _ Hpayload). reflexivity.
  - exists ("    // Original: " +:+ line). split.
    + unfold stream_step, stream_emit.
      change (String.eqb "to_cryptex" "to_cryptex") with true.
      rewrite Hcondition. cbn [andb]. rewrite Hchanged, append_assoc. reflexivity.
    + unfold stream_step.
      change (String.eqb "from_cryptex" "to_cryptex") with false.
      change (String.eqb "from_cryptex" "from_cryptex") with true.
      cbn [andb]. rewrite tag_has_marker.
      assert (Hpayload : Re.blanks_then_payload (String " " line)
                         = Some (Str.lstrip line)).
      { rewrite Hstrip. apply blanks_then_payload_line; [exact Hnl | exact Hstrip]. }
      rewrite (search_original_tag _ _ Hpayload). reflexivity.
Qed.

Lemma tag_restores_line_without_indentation_witness :
  exists tag,
    to_cryptex_line scenario_transcoder (Sections true false)
      "        pe.number_of_sections > 5"
    = [tag; translate_condition_line scenario_transcoder
              "        pe.number_of_sections > 5"]
    /\ from_cryptex_line scenario_transcoder tag
       = [Str.strip "        pe.number_of_sections > 5"].
Proof.
  exact (proj1 (tag_restores_line_without_indentation scenario_transcoder
                  (Sections true false) no_section
                  "        pe.number_of_sections > 5" eq_refl eq_refl eq_refl)).
Defined.

(** ** Texts that are passed through *)

Lemma join_split s : Str.join Str.nl (Str.split Char.newline s) = s.
Proof.
  induction s as [|c s IH]; [reflexivity|].
  cbn [Str.split]. destruct (Ascii.eqb c Char.newline) eqn:Hc.
  - apply Ascii.eqb_eq in Hc. subst c.
    destruct (Str.split Char.newline s) as [|piece pieces] eqn:E.
    + exfalso. exact (split_nonempty _ _ E).
    + cbn [Str.join]. cbn [Str.join] in IH. rewrite IH. reflexivity.
  - destruct (Str.split Char.newline s) as [|piece pieces] eqn:E.
    + exfalso. exact (split_nonempty _ _ E).
    + destruct pieces as [|piece' pieces].
      * simpl in IH. subst piece. reflexivity.
      * cbn [Str.join]. cbn [Str.join] in IH. rewrite append_cons, IH. reflexivity.
Qed.

Lemma detect_sections_no_condition st line :
  in_condition st = false ->
  Re.section_header "condition:" line = false ->
  in_condition (detect_sections st line) = false.
Proof.
  intros Hst Hline. unfold detect_sections. rewrite Hline.
  destruct (Re.section_header "strings:" line); [reflexivity|].
  destruct (Re.meta_or_rule_header line); [reflexivity | exact Hst].
Qed.

Lemma to_cryptex_lines_no_condition self lines :
  Forall (fun line => Re.section_header "condition:" line = false) lines ->
  forall st, in_condition st = false -> to_cryptex_lines self st lines = lines.
Proof.
  induction 1 as [|line rest Hline _ IH]; intros st Hst; [reflexivity|].
  cbn [to_cryptex_lines].
  pose proof (detect_sections_no_condition st line Hst Hline) as Hst'.
  rewrite (IH _ Hst'). unfold to_cryptex_line, changed.
  rewrite Hst', String.eqb_refl. reflexivity.
Qed.

Lemma forward_without_condition self content :
  Forall (fun line => Re.section_header "condition:" line = false)
    (Str.split Char.newline content) ->
  _transcode_to_cryptex self content = content.
Proof.
  intros H. unfold _transcode_to_cryptex.
  rewrite (to_cryptex_lines_no_condition self _ H no_section eq_refl).
  apply join_split.
Qed.

(** X4.  A rule text none of whose lines is a [condition:] header comes
    out of the forward transform exactly as it went in. *)
Theorem text_without_condition_is_unchanged self content :
  Forall (fun line => Re.section_header "condition:" line = false)
    (Str.split Char.newline content) ->
  _transcode_to_cryptex self content = content
  /\ transcode_rule_content self content "to_cryptex" = content.
Proof.
  intros H. split; [exact (forward_without_condition self content H)|].
  unfold transcode_rule_content.
  change (String.eqb "to_cryptex" "from_cryptex") with false.
  exact (forward_without_condition self content H).
Qed.

Lemma text_without_condition_is_unchanged_witness :
  _transcode_to_cryptex scenario_transcoder
    (Str.join Str.nl [ "rule r {"; "    strings:"; "        $a = pe.x"; "}" ])
  = Str.join Str.nl [ "rule r {"; "    strings:"; "        $a = pe.x"; "}" ].
Proof.
  refine (proj1 (text_without_condition_is_unchanged scenario_transcoder
                   (Str.join Str.nl [ "rule r {"; "    strings:"; "        $a = pe.x"; "}" ])
                   _)).
  vm_compute. repeat constructor.
Defined.

(** ** How many lines come out *)

Lemma to_cryptex_line_length self st line :
  1 <= length (to_cryptex_line self st line) <= 2.
Proof.
  unfold to_cryptex_line. rewrite length_app.
  destruct (changed _ line); simpl; lia.
Qed.

Lemma from_cryptex_line_length self line :
  length (from_cryptex_line self line) <= 1.
Proof.
  unfold from_cryptex_line.
  destruct (Str.contains Re.marker line); [|simpl; lia].
  destruct (Re.search_original line); simpl; lia.
Qed.

Lemma stream_step_length self mode st line :
  length (stream_step self mode st line) <= 2.
Proof.
  assert (Hemit : forall a b, length (stream_emit a b) <= 2).
  { intros a b. unfold stream_emit. rewrite length_app.
    destruct (changed a b); simpl; lia. }
  unfold stream_step.
  destruct (String.eqb mode "to_cryptex" && in_condition st); [apply Hemit|].
  destruct (String.eqb mode "from_cryptex"); [|apply Hemit].
  destruct (Str.contains Re.marker line); [|apply Hemit].
  destruct (Re.search_original line); simpl; lia.
Qed.

(** X5.  The forward transform of [n] lines gives between [n] and [2 n]
    lines (a line is kept, and at most one tag is put before it); the
    reverse transform gives at most [n] lines; [stream_transcode_lines]
    gives at most [2 n] lines in every mode. *)
Theorem line_counts self st mode lines :
  length lines <= length (to_cryptex_lines self st lines) <= 2 * length lines
  /\ length (from_cryptex_lines self lines) <= length lines
  /\ length (stream_from self mode st lines) <= 2 * length lines.
Proof.
  split; [|split].
  - revert st. induction lines as [|line rest IH]; intros st; [simpl; lia|].
    cbn [to_cryptex_lines]. rewrite length_app.
    pose proof (to_cryptex_line_length self (detect_sections st line) line).
    specialize (IH (detect_sections st line)). simpl. lia.
  - induction lines as [|line rest IH]; [simpl; lia|].
    cbn [from_cryptex_lines]. rewrite length_app.
    pose proof (from_cryptex_line_length self line). simpl. lia.
  - revert st. induction lines as [|line rest IH]; intros st; [simpl; lia|].
    cbn [stream_from]. rewrite length_app.
    pose proof (stream_step_length self mode
                  (detect_sections st (Str.rstrip_newlines line))
                  (Str.rstrip_newlines line)).
    specialize (IH (detect_sections st (Str.rstrip_newlines line))). simpl. lia.
Qed.

(** ** Modes *)

Lemma stream_from_other_mode self mode :
  String.eqb mode "to_cryptex" = false ->
  String.eqb mode "from_cryptex" = false ->
  forall input_stream st,
    stream_from self mode st input_stream
    = List.map (fun line => Str.rstrip_newlines line +:+ Str.nl) input_stream.
Proof.
  intros Hto Hfrom. induction input_stream as [|line rest IH]; intros st;
    [reflexivity|].
  cbn [stream_from List.map]. rewrite IH.
  unfold stream_step, stream_emit, changed.
  rewrite Hto, Hfrom, String.eqb_refl. reflexivity.
Qed.

(** X6.  A mode that is neither [to_cryptex] nor [from_cryptex] makes
    [stream_transcode_lines] pass every line on untransformed (stripped of
    its line end and given a line feed), while [transcode_rule_content]
    takes every mode other than [from_cryptex] for the forward transform. *)
Theorem unknown_mode self mode :
  mode <> "to_cryptex" ->
  mode <> "from_cryptex" ->
  (forall input_stream,
     stream_transcode_lines self input_stream mode
     = List.map (fun line => Str.rstrip_newlines line +:+ Str.nl) input_stream)
  /\ (forall content,
        transcode_rule_content self content mode = _transcode_to_cryptex self content).
Proof.
  intros Hto Hfrom.
  apply String.eqb_neq in Hto. apply String.eqb_neq in Hfrom. split.
  - intros input_stream. apply stream_from_other_mode; assumption.
  - intros content. unfold transcode_rule_content. rewrite Hfrom. reflexivity.
Qed.

Lemma unknown_mode_witness :
  stream_transcode_lines scenario_transcoder [ "condition:"; "pe.x" ] "to_codename"
  = List.map (fun line => Str.rstrip_newlines line +:+ Str.nl) [ "condition:"; "pe.x" ].
Proof.
  refine (proj1 (unknown_mode scenario_transcoder "to_codename" _ _) _);
    discriminate.
Defined.

(** X7.  [cross_convert_stream] does not look at the source format: the
    lines are transformed forward when the target format is [cryptex] and
    reversed for every other target, [json] and [yara] to [yara]
    included. *)
Theorem cross_convert_ignores_source self input_stream source_format target_format :
  cross_convert_stream self input_stream source_format target_format
  = stream_transcode_lines self input_stream
      (if String.eqb target_format "cryptex" then "to_cryptex" else "from_cryptex").
Proof.
  unfold cross_convert_stream, cross_convert_mode. f_equal.
  destruct (String.eqb target_format "cryptex") eqn:Hcryptex.
  - rewrite andb_true_r.
    destruct (String.eqb source_format "yara"); [reflexivity|].
    apply String.eqb_eq in Hcryptex. subst target_format.
    rewrite andb_false_r. reflexivity.
  - rewrite andb_false_r.
    destruct (String.eqb source_format "cryptex" && String.eqb target_format "yara");
      reflexivity.
Qed.

(** ** Line ends *)

Lemma stream_step_newlines self mode st line :
  Forall ends_with_newline (stream_step self mode st line).
Proof.
  assert (Hemit : forall a b, Forall ends_with_newline (stream_emit a b)).
  { intros a b. unfold stream_emit. apply Forall_app. split.
    - destruct (changed a b); constructor; [|constructor].
      exists ("    // Original: " +:+ b). rewrite append_assoc. reflexivity.
    - constructor; [exists a; reflexivity | constructor]. }
  unfold stream_step.
  destruct (String.eqb mode "to_cryptex" && in_condition st); [apply Hemit|].
  destruct (String.eqb mode "from_cryptex"); [|apply Hemit].
  destruct (Str.contains Re.marker line); [|apply Hemit].
  destruct (Re.search_original line) as [payload|]; constructor;
    [exists payload; reflexivity | constructor].
Qed.

(** X8.  Every line that [stream_transcode_lines] yields ends with a line
    feed, in every mode and whatever the line ends of the input. *)
Theorem streamed_lines_end_with_newline self mode input_stream :
  Forall ends_with_newline (stream_transcode_lines self input_stream mode).
Proof.
  unfold stream_transcode_lines. generalize no_section.
  induction input_stream as [|line rest IH]; intros st; [constructor|].
  cbn [stream_from]. apply Forall_app. split;
    [apply stream_step_newlines | apply IH].
Qed.

(** ** The symbol map and its inverse *)

Lemma get_set_same k v (d : Dict.t) : Dict.get k (Dict.set k v d) = Some v.
Proof.
  induction d as [|[k' v'] d IH]; simpl.
  - rewrite String.eqb_refl. reflexivity.
  - destruct (String.eqb k' k) eqn:E; simpl; rewrite E; [reflexivity | exact IH].
Qed.

Lemma get_set_other k k' v (d : Dict.t) :
  k <> k' -> Dict.get k' (Dict.set k v d) = Dict.get k' d.
Proof.
  intros Hne. induction d as [|[k0 v0] d IH]; simpl.
  - apply String.eqb_neq in Hne. rewrite Hne. reflexivity.
  - destruct (String.eqb k0 k) eqn:E; simpl.
    + apply String.eqb_eq in E. subst k0.
      apply String.eqb_neq in Hne. rewrite Hne. reflexivity.
    + rewrite IH. reflexivity.
Qed.

Lemma in_set k v (d : Dict.t) k' v' :
  In (k', v') (Dict.set k v d) -> (k' = k /\ v' = v) \/ In (k', v') d.
Proof.
  induction d as [|[k0 v0] d IH]; simpl.
  - intros [[= <- <-]|[]]. left. split; reflexivity.
  - destruct (String.eqb k0 k) eqn:E; simpl.
    + apply String.eqb_eq in E. subst k0.
      intros [[= <- <-]|H]; [left; split; reflexivity | right; right; exact H].
    + intros [H|H]; [right; left; exact H|].
      destruct (IH H) as [H'|H']; [left; exact H' | right; right; exact H'].
Qed.

Lemma keys_set k v (d : Dict.t) :
  keys (Dict.set k v d) = keys d
  \/ (~ In k (keys d) /\ keys (Dict.set k v d) = keys d ++ [k]).
Proof.
  induction d as [|[k0 v0] d IH]; simpl.
  - right. split; [tauto | reflexivity].
  - destruct (String.eqb k0 k) eqn:E; simpl; [left; reflexivity|].
    apply String.eqb_neq in E.
    destruct IH as [IH|[Hnew IH]]; unfold keys in *; rewrite IH.
    + left. reflexivity.
    + right. split; [|reflexivity]. intros [H|H]; [exact (E H) | exact (Hnew H)].
Qed.

Lemma NoDup_snoc (l : list string) k : List.NoDup l -> ~ In k l -> List.NoDup (l ++ [k]).
Proof.
  induction l as [|x l IH]; intros Hl Hk; simpl.
  - constructor; [intros [] | constructor].
  - apply List.NoDup_cons_iff in Hl as [Hx Hl]. apply List.NoDup_cons_iff. split.
    + intros H. apply in_app_or in H. destruct H as [H|H]; [exact (Hx H)|].
      destruct H as [H|[]]. apply Hk. left. symmetry. exact H.
    + apply IH; [exact Hl|]. intros H. apply Hk. right. exact H.
Qed.

Lemma keys_set_NoDup k v (d : Dict.t) : List.NoDup (keys d) -> List.NoDup (keys (Dict.set k v d)).
Proof.
  intros H. destruct (keys_set k v d) as [->|[Hnew ->]]; [exact H|].
  apply NoDup_snoc; assumption.
Qed.

Lemma dict_get_In_key k v (d : Dict.t) : Dict.get k d = Some v -> In (k, v) d.
Proof.
  induction d as [|[k' v'] d IH]; simpl; [discriminate|].
  destruct (String.eqb k' k) eqn:E.
  - apply String.eqb_eq in E. intros [= ->]. left. subst. reflexivity.
  - intros H. right. exact (IH H).
Qed.

Lemma dict_In_get k v (d : Dict.t) :
  List.NoDup (keys d) -> In (k, v) d -> Dict.get k d = Some v.
Proof.
  induction d as [|[k' v'] d IH]; simpl; [intros _ []|].
  intros Hnodup [[= -> ->]|Hin].
  - rewrite String.eqb_refl. reflexivity.
  - apply List.NoDup_cons_iff in Hnodup as [Hfresh Hnodup].
    destruct (String.eqb k' k) eqn:E; [|exact (IH Hnodup Hin)].
    apply String.eqb_eq in E. subst k'. exfalso. apply Hfresh.
    change (In (fst (k, v)) (List.map fst d)). apply in_map, Hin.
Qed.

Lemma build_keeps_entry entries :
  forall acc s c,
    Dict.get s acc = Some c ->
    (forall e, In e entries -> usable e = true -> symbol e <> s) ->
    Dict.get s
      (fold_left
         (fun symbol_map entry =>
            if Str.nonempty (symbol entry) && Str.nonempty (pyro_name entry)
            then Dict.set (symbol entry) (pyro_name entry) symbol_map
            else symbol_map)
         entries acc)
    = Some c.
Proof.
  induction entries as [|e entries IH]; intros acc s c Hget Hother; [exact Hget|].
  simpl. apply IH.
  - destruct (Str.nonempty (symbol e) && Str.nonempty (pyro_name e)) eqn:E;
      [|exact Hget].
    rewrite get_set_other; [exact Hget|].
    apply Hother; [left; reflexivity | exact E].
  - intros e' Hin. apply Hother. right. exact Hin.
Qed.

Lemma build_invariant entries :
  forall acc,
    List.NoDup (keys acc) ->
    (forall s c, In (s, c) acc ->
       s <> EmptyString /\ c <> EmptyString) ->
    let result :=
      fold_left
        (fun symbol_map entry =>
           if Str.nonempty (symbol entry) && Str.nonempty (pyro_name entry)
           then Dict.set (symbol entry) (pyro_name entry) symbol_map
           else symbol_map)
        entries acc in
    List.NoDup (keys result)
    /\ (forall s c, In (s, c) result ->
          s <> EmptyString /\ c <> EmptyString
          /\ (In (s, c) acc
              \/ exists e, In e entries /\ symbol e = s /\ pyro_name e = c)).
Proof.
  induction entries as [|e entries IH]; intros acc Hnodup Hacc; simpl.
  - split; [exact Hnodup|]. intros s c Hin.
    destruct (Hacc s c Hin) as [Hs Hc]. repeat split; try assumption.
    left. exact Hin.
  - destruct (Str.nonempty (symbol e) && Str.nonempty (pyro_name e)) eqn:E.
    + apply andb_true_iff in E as [Es Ec].
      destruct (IH (Dict.set (symbol e) (pyro_name e) acc)) as [Hn Hin'].
      * apply keys_set_NoDup, Hnodup.
      * intros s c Hin. apply in_set in Hin as [[-> ->]|Hin]; [|exact (Hacc s c Hin)].
        split; intros H; rewrite H in *; discriminate.
      * split; [exact Hn|]. intros s c Hin.
        destruct (Hin' s c Hin) as (Hs & Hc & [Hold|(e' & He' & <- & <-)]).
        -- repeat split; try assumption.
           apply in_set in Hold as [[-> ->]|Hold]; [right | left; exact Hold].
           exists e. repeat split. left. reflexivity.
        -- repeat split; try assumption. right. exists e'.
           repeat split. right. exact He'.
    + destruct (IH acc Hnodup Hacc) as [Hn Hin'].
      split; [exact Hn|]. intros s c Hin.
      destruct (Hin' s c Hin) as (Hs & Hc & [Hold|(e' & He' & <- & <-)]).
      * repeat split; try assumption. left. exact Hold.
      * repeat split; try assumption. right. exists e'.
        repeat split. right. exact He'.
Qed.

Lemma symbol_map_keys_NoDup entries : List.NoDup (keys (_build_symbol_map entries)).
Proof.
  destruct (build_invariant entries [] (List.NoDup_nil _)) as [H _];
    [intros s c [] | exact H].
Qed.

(** X9.  The symbol map never has a symbol twice, and never an empty
    symbol or an empty codename; each of its pairs comes from an entry of
    the dictionary; and when a symbol occurs in several usable entries the
    last one decides its codename. *)
Theorem symbol_map_invariant entries :
  List.NoDup (keys (_build_symbol_map entries))
  /\ (forall s c,
        In (s, c) (_build_symbol_map entries) ->
        s <> EmptyString /\ c <> EmptyString
        /\ exists e, In e entries /\ symbol e = s /\ pyro_name e = c)
  /\ (forall pre e post,
        entries = pre ++ e :: post ->
        usable e = true ->
        (forall e', In e' post -> usable e' = true -> symbol e' <> symbol e) ->
        Dict.get (symbol e) (_build_symbol_map entries) = Some (pyro_name e)).
Proof.
  destruct (build_invariant entries [] (List.NoDup_nil _)) as [Hnodup Hin];
    [intros s c []|].
  split; [exact Hnodup|]. split.
  - intros s c H. destruct (Hin s c H) as (Hs & Hc & [[]|He]).
    repeat split; assumption.
  - intros pre e post -> He Hpost. unfold _build_symbol_map.
    rewrite fold_left_app. simpl. unfold usable in He. rewrite He.
    apply build_keeps_entry; [apply get_set_same | exact Hpost].
Qed.

Lemma symbol_map_invariant_witness :
  Dict.get "pe_scan"
    (_build_symbol_map
       [ Entry "pe_scan" "Alpha-Scan"; Entry "pe_scan" "Beta-Scan"; Entry "pe_scan" "" ])
  = Some "Beta-Scan".
Proof.
  refine (proj2 (proj2 (symbol_map_invariant
                          [ Entry "pe_scan" "Alpha-Scan"; Entry "pe_scan" "Beta-Scan";
                            Entry "pe_scan" "" ]))
            [ Entry "pe_scan" "Alpha-Scan" ] (Entry "pe_scan" "Beta-Scan")
            [ Entry "pe_scan" "" ] eq_refl eq_refl _).
  intros e' [<-|[]] H. discriminate H.
Defined.

(** The loop of [Dict.invert] from a map built so far. *)
Lemma invert_keeps c (d : Dict.t) :
  (forall k v, In (k, v) d -> v <> c) ->
  forall acc,
    Dict.get c (fold_left (fun acc kv => Dict.set (snd kv) (fst kv) acc) d acc)
    = Dict.get c acc.
Proof.
  induction d as [|[k v] d IH]; intros Hd acc; [reflexivity|]. simpl.
  rewrite IH by (intros k' v' H; apply (Hd k' v'); right; exact H).
  apply get_set_other, (Hd k v). left. reflexivity.
Qed.

Lemma invert_finds (d : Dict.t) :
  List.NoDup (values d) ->
  forall s c acc,
    In (s, c) d ->
    Dict.get c (fold_left (fun acc kv => Dict.set (snd kv) (fst kv) acc) d acc)
    = Some s.
Proof.
  induction d as [|[k v] d IH]; intros Hnodup s c acc Hin; [destruct Hin|].
  unfold values in Hnodup. simpl in Hnodup.
  apply List.NoDup_cons_iff in Hnodup as [Hfresh Hnodup].
  simpl. destruct Hin as [[= -> ->]|Hin]; [|apply (IH Hnodup), Hin].
  rewrite invert_keeps; [apply get_set_same|].
  intros k' v' H ->. apply Hfresh.
  change (In (snd (k', c)) (List.map snd d)). apply in_map, H.
Qed.

Lemma invert_sound (d : Dict.t) :
  forall acc c s,
    In (c, s) (fold_left (fun acc kv => Dict.set (snd kv) (fst kv) acc) d acc) ->
    In (c, s) acc \/ In (s, c) d.
Proof.
  induction d as [|[k v] d IH]; intros acc c s H; [left; exact H|].
  simpl in H. destruct (IH _ _ _ H) as [H'|H'].
  - apply in_set in H' as [[-> ->]|H']; [right; left; reflexivity | left; exact H'].
  - right. right. exact H'.
Qed.

(** X10.  What the reverse map gives for a codename is a symbol that the
    symbol map sends to that codename; and when no two symbols share a
    codename, the reverse map inverts the symbol map exactly. *)
Theorem reverse_map_inverts_symbol_map entries :
  (forall c s,
     Dict.get c (codename_to_symbol (RuleTranscoder_init entries)) = Some s ->
     Dict.get s (symbol_to_codename (RuleTranscoder_init entries)) = Some c)
  /\ (List.NoDup (values (symbol_to_codename (RuleTranscoder_init entries))) ->
      forall s c,
        Dict.get s (symbol_to_codename (RuleTranscoder_init entries)) = Some c ->
        Dict.get c (codename_to_symbol (RuleTranscoder_init entries)) = Some s).
Proof.
  simpl. split.
  - intros c s H. apply dict_get_In_key in H.
    apply invert_sound in H as [[]|H].
    apply dict_In_get; [apply symbol_map_keys_NoDup | exact H].
  - intros Hnodup s c H. apply invert_finds; [exact Hnodup|].
    apply dict_get_In_key, H.
Qed.

Lemma reverse_map_inverts_symbol_map_witness :
  Dict.get "Alpha-Scan"
    (codename_to_symbol (RuleTranscoder_init nested_codenames)) = Some "pe_scan".
Proof.
  refine (proj2 (reverse_map_inverts_symbol_map nested_codenames) _
            "pe_scan" "Alpha-Scan" eq_refl).
  vm_compute. repeat constructor; simpl; intuition discriminate.
Defined.

(** ** Module names and their translation *)

Lemma length_map f s : String.length (Str.map f s) = String.length s.
Proof. induction s as [|c s IH]; simpl; [reflexivity | rewrite IH; reflexivity]. Qed.

Lemma length_title_from prev s : String.length (Str.title_from prev s) = String.length s.
Proof.
  revert prev. induction s as [|c s IH]; intros prev; simpl;
    [reflexivity | rewrite IH; reflexivity].
Qed.

Lemma module_mappings_longer entries :
  Forall (fun module_alias =>
            String.length (fst module_alias) < String.length (snd module_alias))
    (module_mappings (RuleTranscoder_init entries)).
Proof. repeat (constructor; [simpl; lia|]). constructor. Qed.

Lemma fallback_is_no_module entries x :
  Dict.get (Str.lower ("Module-" +:+ x)) (module_mappings (RuleTranscoder_init entries))
  = None.
Proof. reflexivity. Qed.

(** X11.  Translating a module name always gives a longer text, so no name
    is its own translation; and the translation of a translation is never
    an alias of the table but the fallback [Module-...]: the table's
    aliases and the fallback names are not module names themselves. *)
Theorem translation_is_never_final entries name :
  String.length name
  < String.length (translate_module_reference (RuleTranscoder_init entries) name)
  /\ translate_module_reference (RuleTranscoder_init entries)
       (translate_module_reference (RuleTranscoder_init entries) name)
     = "Module-"
       +:+ Str.title (translate_module_reference (RuleTranscoder_init entries) name).
Proof.
  unfold translate_module_reference at 1 3 4.
  destruct (Dict.get (Str.lower name) (module_mappings (RuleTranscoder_init entries)))
    as [codename|] eqn:Hget.
  - apply dict_get_In_key in Hget. split.
    + pose proof (proj1 (List.Forall_forall _ _) (module_mappings_longer entries)
                    _ Hget) as H.
      cbn [fst snd] in H. unfold Str.lower in H. rewrite length_map in H. exact H.
    + destruct (proj1 (List.Forall_forall _ _) (module_mappings_final entries)
                  _ Hget) as [_ H].
      cbn [fst snd] in H. unfold translate_module_reference. rewrite H. reflexivity.
  - split.
    + rewrite length_append. unfold Str.title. rewrite length_title_from. simpl. lia.
    + unfold translate_module_reference.
      rewrite fallback_is_no_module. reflexivity.
Qed.

(** ** [translate_function_call] *)

Lemma startswith_append p b : Str.startswith p (p +:+ b) = true.
Proof.
  induction p as [|c p IH]; [destruct b; reflexivity|].
  rewrite append_cons, startswith_cons, Ascii.eqb_refl, IH. reflexivity.
Qed.

Lemma contains_intro sub (a b : string) : Str.contains sub (a +:+ sub +:+ b) = true.
Proof.
  induction a as [|c a IH].
  - rewrite append_nil. destruct (sub +:+ b) eqn:E; simpl; rewrite <- E;
      rewrite startswith_append; reflexivity.
  - rewrite append_cons. cbn [Str.contains]. rewrite IH. apply orb_true_r.
Qed.

Lemma drop_append (a b : string) : Str.drop (String.length a) (a +:+ b) = b.
Proof.
  induction a as [|c a IH]; [rewrite append_nil; destruct b; reflexivity|].
  rewrite append_cons. simpl. exact IH.
Qed.

Lemma replace_first_at_start old new rest :
  replace_first old new (old +:+ rest) = new +:+ rest.
Proof.
  destruct (old +:+ rest) eqn:E; cbn [replace_first]; rewrite <- E;
    rewrite startswith_append, drop_append; reflexivity.
Qed.

Lemma split_once_first_dot before rest :
  Str.contains "." before = false ->
  split_once "." (before +:+ String "." rest) = (before, Some rest).
Proof.
  induction before as [|c before IH]; intros H; [reflexivity|].
  rewrite append_cons. cbn [split_once].
  change (Str.contains "." (String c before))
    with (Ascii.eqb "." c && true || Str.contains "." before) in H.
  apply orb_false_iff in H as [Hc H]. rewrite andb_true_r in Hc.
  rewrite Ascii.eqb_sym, Hc, (IH H). reflexivity.
Qed.

Lemma call_name_of_call func args :
  identifier func = true -> call_name (func +:+ String "(" args) = Some func.
Proof.
  unfold identifier. intros H. apply andb_true_iff in H as [Hne Hword].
  unfold call_name. rewrite (span_word_app func (String "(" args) Hword eq_refl).
  rewrite Hne. reflexivity.
Qed.

(** X12.  For a call [module.func(args] whose symbol [module_func] is in
    the dictionary, [translate_function_call] gives the alias of the
    module, a dot, the part of the codename behind its last hyphen in place
    of the function name, and the rest of the call untouched; for a symbol
    that is not in the dictionary only the module is translated. *)
Theorem translate_function_call_of_call self module_text func args :
  Str.contains "." module_text = false ->
  Str.nonempty (Str.strip module_text) = true ->
  identifier func = true ->
  translate_function_call self (module_text +:+ "." +:+ func +:+ "(" +:+ args)
  = translate_module_reference self (Str.strip module_text)
    +:+ "."
    +:+ match Dict.get (Str.strip module_text +:+ "_" +:+ func)
                (symbol_to_codename self) with
        | Some codename => Str.last_piece "-" codename
        | None => func
        end
    +:+ "(" +:+ args.
Proof.
  intros Hmodule Hne Hfunc. unfold translate_function_call.
  change ("." +:+ func +:+ "(" +:+ args) with (String "." (func +:+ String "(" args)).
  assert (Hdot : Str.contains "." (module_text +:+ String "." (func +:+ String "(" args))
                 = true) by apply (contains_intro "." module_text).
  rewrite Hdot, (split_once_first_dot _ _ Hmodule). cbn [fst snd].
  assert (Hparen : Str.contains "(" (func +:+ String "(" args) = true)
    by apply (contains_intro "(" func).
  rewrite Hparen, (call_name_of_call func args Hfunc), Hne.
  destruct (Dict.get (Str.strip module_text +:+ "_" +:+ func) (symbol_to_codename self));
    [|reflexivity].
  rewrite replace_first_at_start. reflexivity.
Qed.

Lemma translate_function_call_of_call_witness :
  translate_function_call scenario_transcoder (" pe " +:+ "." +:+ "get_section" +:+ "(" +:+ "0)")
  = "IronCurtain.Section(0)".
Proof.
  exact (translate_function_call_of_call scenario_transcoder " pe " "get_section" "0)"
           eq_refl eq_refl eq_refl).
Defined.

(** ** The events and the writes of the archive processors *)

Lemma stream_zip_loop_tally joinpath self z output_dir mode total_files file_list :
  forall count (files : gmap string string),
    List.map event_file
      (fst (stream_zip_loop joinpath self z output_dir mode total_files file_list
              count files))
    = List.map Some file_list
    /\ fst (snd (stream_zip_loop joinpath self z output_dir mode total_files file_list
                   count files))
       = count
         + length (List.filter is_processing
                     (fst (stream_zip_loop joinpath self z output_dir mode total_files
                             file_list count files)))
    /\ length (List.filter is_processing
                 (fst (stream_zip_loop joinpath self z output_dir mode total_files
                         file_list count files)))
       + length (List.filter is_error
                   (fst (stream_zip_loop joinpath self z output_dir mode total_files
                           file_list count files)))
       = length file_list
    /\ (forall p,
          (forall name, In name file_list ->
                        p <> joinpath output_dir (path_name name)) ->
          snd (snd (stream_zip_loop joinpath self z output_dir mode total_files
                      file_list count files)) !! p
          = files !! p).
Proof.
  induction file_list as [|file_info rest IH]; intros count files.
  - simpl. repeat split. lia.
  - cbn [stream_zip_loop].
    destruct (stream_transcode_member self z mode file_info) as [content|message].
    + specialize (IH (S count)
                    (<[joinpath output_dir (path_name file_info) := content]> files)).
      destruct (stream_zip_loop joinpath self z output_dir mode total_files rest (S count) _)
        as [events [count' files']].
      cbn [fst snd] in *. destruct IH as (Hfiles & Hcount & Htotal & Hframe).
      cbn [List.map event_file List.filter is_processing is_error length].
      repeat split.
      * rewrite Hfiles. reflexivity.
      * lia.
      * lia.
      * intros p Hp. rewrite Hframe by (intros name H; apply Hp; right; exact H).
        apply lookup_insert_ne. intros H. apply (Hp file_info); [left; reflexivity|].
        symmetry. exact H.
    + specialize (IH count files).
      destruct (stream_zip_loop joinpath self z output_dir mode total_files rest count files)
        as [events [count' files']].
      cbn [fst snd] in *. destruct IH as (Hfiles & Hcount & Htotal & Hframe).
      cbn [List.map event_file List.filter is_processing is_error length].
      repeat split.
      * rewrite Hfiles. reflexivity.
      * exact Hcount.
      * lia.
      * intros p Hp. apply Hframe. intros name H. apply Hp. right. exact H.
Qed.

(** X13.  [stream_transcode_zip] yields [started], then one event for each
    rule file of the archive in the order of the archive (a [processing] or
    an [error] event, and none for other members), then [completed]; the
    count that [completed] reports is the number of [processing] events,
    and [processing] and [error] events together are as many as the rule
    files. *)
Theorem zip_event_tally joinpath self zip_path z output_dir mode
  (files : gmap string string) :
  exists inner,
    fst (stream_transcode_zip joinpath self zip_path z output_dir mode files)
    = started (length (rule_files z)) zip_path
        :: inner
        ++ [completed (length (rule_files z))
              (length (List.filter is_processing inner)) output_dir]
    /\ List.map event_file inner = List.map Some (rule_files z)
    /\ length (List.filter is_processing inner) + length (List.filter is_error inner)
       = length (rule_files z).
Proof.
  unfold stream_transcode_zip. fold (rule_files z).
  pose proof (stream_zip_loop_tally joinpath self z output_dir mode (length (rule_files z))
                (rule_files z) 0 files) as H.
  destruct (stream_zip_loop joinpath self z output_dir mode (length (rule_files z))
              (rule_files z) 0 files) as [events [count files']].
  cbn [fst snd] in *. destruct H as (Hfiles & Hcount & Htotal & _).
  exists events. rewrite Hcount. repeat split; assumption.
Qed.

(** The pieces of a split hold no separator. *)
Lemma split_pieces sep s :
  Forall (fun piece => Str.contains (String sep EmptyString) piece = false)
    (Str.split sep s).
Proof.
  induction s as [|c s IH]; [repeat constructor|].
  cbn [Str.split]. destruct (Ascii.eqb c sep) eqn:Hc.
  - constructor; [reflexivity | exact IH].
  - destruct (Str.split sep s) as [|piece pieces]; [repeat constructor|].
    + change (Str.contains (String sep EmptyString) (String c EmptyString))
        with (Ascii.eqb sep c && true || (false || false)).
      rewrite Ascii.eqb_sym, Hc. reflexivity.
    + apply Forall_cons_iff in IH as [Hpiece Hpieces].
      constructor; [|exact Hpieces].
      change (Str.contains (String sep EmptyString) (String c piece))
        with (Ascii.eqb sep c && true
              || Str.contains (String sep EmptyString) piece).
      rewrite Ascii.eqb_sym, Hc, Hpiece. reflexivity.
Qed.

Lemma Forall_last (P : string -> Prop) (l : list string) d :
  Forall P l -> l <> [] -> P (List.last l d).
Proof.
  induction 1 as [|x l Hx Hl IH]; intros Hne; [contradiction|].
  destruct l as [|y l]; [exact Hx|].
  change (P (List.last (y :: l) d)). apply IH. discriminate.
Qed.

Lemma path_name_has_no_slash file_info : Str.contains "/" (path_name file_info) = false.
Proof.
  unfold path_name, Str.last_piece.
  apply (Forall_last (fun piece => Str.contains "/" piece = false));
    [apply (split_pieces "/") | apply split_nonempty].
Qed.

(** ** [transcode_zip_file]: all members or none behind the first failure *)

Lemma transcode_zip_loop_rule_files joinpath self z output_dir mode names :
  forall transcoded_files (files : gmap string string),
    transcode_zip_loop joinpath self z output_dir mode names transcoded_files files
    = transcode_zip_loop joinpath self z output_dir mode (List.filter is_rule_file names)
        transcoded_files files.
Proof.
  induction names as [|file_info rest IH]; intros acc files; [reflexivity|].
  cbn [transcode_zip_loop List.filter].
  destruct (is_rule_file file_info) eqn:Hrule; [|apply IH].
  cbn [transcode_zip_loop]. rewrite Hrule.
  destruct (zip_read z file_info) as [[content|exception]|]; try reflexivity.
  apply IH.
Qed.

Lemma transcode_zip_loop_readable joinpath self z output_dir mode names rest :
  Forall (fun name => is_rule_file name = true
                      /\ exists content, zip_read z name = Some (Stored content))
    names ->
  forall transcoded_files (files : gmap string string),
    exists files' : gmap string string,
      transcode_zip_loop joinpath self z output_dir mode (names ++ rest)
        transcoded_files files
      = transcode_zip_loop joinpath self z output_dir mode rest
          (transcoded_files
           ++ List.map (fun name => joinpath output_dir (path_name name)) names)
          files'
      /\ forall p,
           (forall name, In name names ->
                         p <> joinpath output_dir (path_name name)) ->
           files' !! p = files !! p.
Proof.
  induction 1 as [|file_info names [Hrule [content Hread]] _ IH]; intros acc files.
  - exists files. rewrite app_nil_r. split; reflexivity.
  - cbn [app transcode_zip_loop]. rewrite Hrule, Hread.
    destruct (IH (acc ++ [joinpath output_dir (path_name file_info)])
                (<[joinpath output_dir (path_name file_info) :=
                     transcode_rule_content self content mode]> files))
      as (files' & Hloop & Hframe).
    exists files'. split.
    + rewrite Hloop, <- app_assoc. reflexivity.
    + intros p Hp. rewrite Hframe by (intros name H; apply Hp; right; exact H).
      apply lookup_insert_ne. intros H.
      apply (Hp file_info); [left; reflexivity | symmetry; exact H].
Qed.

Lemma rule_files_are_rule_files z name :
  In name (rule_files z) -> is_rule_file name = true.
Proof. unfold rule_files. intros H. apply filter_In in H as [_ H]. exact H. Qed.

(** X15.  [transcode_zip_file] returns the output paths of all rule files,
    in the order of the archive, when every one of them can be read; when
    one cannot, the call ends with its exception, no path is returned, and
    nothing has been written for the rule files behind it. *)
Theorem transcode_zip_file_all_or_abort joinpath self z output_dir mode
  (files : gmap string string) :
  ((forall name, In name (rule_files z) ->
                 exists content, zip_read z name = Some (Stored content)) ->
   fst (transcode_zip_file joinpath self z output_dir mode files)
   = inl (List.map (fun name => joinpath output_dir (path_name name)) (rule_files z)))
  /\ (forall pre bad post exception,
        rule_files z = pre ++ bad :: post ->
        (forall name, In name pre ->
                      exists content, zip_read z name = Some (Stored content)) ->
        zip_read z bad = Some (Damaged exception) ->
        fst (transcode_zip_file joinpath self z output_dir mode files) = inr exception
        /\ forall p,
             (forall name, In name pre ->
                           p <> joinpath output_dir (path_name name)) ->
             snd (transcode_zip_file joinpath self z output_dir mode files) !! p
             = files !! p).
Proof.
  unfold transcode_zip_file. rewrite transcode_zip_loop_rule_files.
  fold (rule_files z). split.
  - intros Hread.
    destruct (transcode_zip_loop_readable joinpath self z output_dir mode (rule_files z) []
                ltac:(apply List.Forall_forall; intros name H; split;
                      [exact (rule_files_are_rule_files z name H) | exact (Hread name H)])
                [] files) as (files' & Hloop & _).
    rewrite app_nil_r in Hloop. rewrite Hloop. reflexivity.
  - intros pre bad post exception Hfiles Hread Hbad.
    assert (Hrule : is_rule_file bad = true).
    { apply (rule_files_are_rule_files z). rewrite Hfiles.
      apply in_or_app. right. left. reflexivity. }
    destruct (transcode_zip_loop_readable joinpath self z output_dir mode pre (bad :: post)
                ltac:(apply List.Forall_forall; intros name H; split;
                      [apply (rule_files_are_rule_files z); rewrite Hfiles;
                       apply in_or_app; left; exact H
                      | exact (Hread name H)])
                [] files) as (files' & Hloop & Hframe).
    rewrite Hfiles, Hloop. cbn [transcode_zip_loop]. rewrite Hrule, Hbad.
    split; [reflexivity | exact Hframe].
Qed.

Lemma transcode_zip_file_all_or_abort_witness :
  fst (transcode_zip_file posix_joinpath scenario_transcoder damaged_archive
         "out" "to_cryptex" ∅)
  = inr "Bad CRC-32 for file 'second.yar'".
Proof.
  refine (proj1 (proj2 (transcode_zip_file_all_or_abort posix_joinpath scenario_transcoder
                          damaged_archive "out" "to_cryptex" ∅)
                   [ "first.yar" ] "second.yar" [ "third.yara" ]
                   "Bad CRC-32 for file 'second.yar'" eq_refl _ eq_refl)).
  intros name [<-|[]]. eexists. reflexivity.
Defined.

(** ** The line feed that the streaming archive processor adds *)

Lemma absent_forallb x s :
  Str.contains (String x EmptyString) s = false ->
  Str.forallb (fun c => negb (Ascii.eqb c x)) s = true.
Proof.
  induction s as [|c s IH]; [reflexivity|].
  change (Str.contains (String x EmptyString) (String c s))
    with (Ascii.eqb x c && true || Str.contains (String x EmptyString) s).
  intros H. apply orb_false_iff in H as [Hc H]. rewrite andb_true_r in Hc.
  cbn [Str.forallb]. rewrite (IH H), Ascii.eqb_sym, Hc. reflexivity.
Qed.

Lemma split_keeps p sep s :
  Str.forallb p s = true ->
  Forall (fun piece => Str.forallb p piece = true) (Str.split sep s).
Proof.
  induction s as [|c s IH]; intros H; [repeat constructor|].
  cbn [Str.forallb] in H. apply andb_true_iff in H as [Hc H]. specialize (IH H).
  cbn [Str.split]. destruct (Ascii.eqb c sep).
  - constructor; [reflexivity | exact IH].
  - destruct (Str.split sep s) as [|piece pieces].
    + constructor; [|constructor]. cbn [Str.forallb]. rewrite Hc. reflexivity.
    + apply Forall_cons_iff in IH as [Hpiece Hpieces].
      constructor; [|exact Hpieces]. cbn [Str.forallb]. rewrite Hc. exact Hpiece.
Qed.

Lemma rstrip_newlines_id s :
  Str.forallb (fun c => negb (Ascii.eqb c Char.newline)) s = true ->
  Str.forallb (fun c => negb (Ascii.eqb c Char.carriage_return)) s = true ->
  Str.rstrip_newlines s = s.
Proof.
  induction s as [|c s IH]; intros Hnl Hcr; [reflexivity|].
  cbn [Str.forallb] in Hnl, Hcr.
  apply andb_true_iff in Hnl as [Hc1 Hnl]. apply andb_true_iff in Hcr as [Hc2 Hcr].
  cbn [Str.rstrip_newlines]. rewrite (IH Hnl Hcr).
  apply negb_true_iff in Hc1, Hc2. rewrite Hc1, Hc2.
  destruct s; reflexivity.
Qed.

Lemma append_empty_r (s : string) : s +:+ EmptyString = s.
Proof.
  induction s as [|c s IH]; [reflexivity|]. rewrite append_cons, IH. reflexivity.
Qed.

Lemma concat_lines s :
  Str.concat (List.map (fun line => line +:+ Str.nl) (Str.split Char.newline s))
  = s +:+ Str.nl.
Proof.
  induction s as [|c s IH]; [reflexivity|].
  cbn [Str.split]. destruct (Ascii.eqb c Char.newline) eqn:Hc.
  - apply Ascii.eqb_eq in Hc. subst c.
    cbn [List.map]. unfold Str.concat in *. cbn [fold_right]. rewrite IH. reflexivity.
  - destruct (Str.split Char.newline s) as [|piece pieces] eqn:E.
    + exfalso. exact (split_nonempty _ _ E).
    + cbn [List.map] in *. unfold Str.concat in *. cbn [fold_right] in *.
      rewrite !append_cons. rewrite <- IH. rewrite !append_assoc. reflexivity.
Qed.

Lemma stream_from_no_condition self lines :
  Forall (fun line =>
            Re.section_header "condition:" (Str.rstrip_newlines line) = false) lines ->
  forall st,
    in_condition st = false ->
    stream_from self "to_cryptex" st lines
    = List.map (fun line => Str.rstrip_newlines line +:+ Str.nl) lines.
Proof.
  induction 1 as [|line rest Hline _ IH]; intros st Hst; [reflexivity|].
  cbn [stream_from List.map].
  pose proof (detect_sections_no_condition st _ Hst Hline) as Hst'.
  rewrite (IH _ Hst'). unfold stream_step, stream_emit, changed.
  rewrite Hst', andb_false_r.
  change (String.eqb "to_cryptex" "from_cryptex") with false.
  rewrite String.eqb_refl. reflexivity.
Qed.

(** X16.  For the text of a member with no carriage return and no
    [condition:] header, the streaming archive processor writes the text
    with one line feed added at its end, while the forward transform that
    [transcode_zip_file] applies to the same text gives the text itself:
    the two processors do not write the same file. *)
Theorem streamed_member_gains_a_line_feed self z file_info content :
  zip_read z file_info = Some (Stored content) ->
  Str.contains (String Char.carriage_return EmptyString) content = false ->
  Forall (fun line => Re.section_header "condition:" line = false)
    (Str.split Char.newline content) ->
  stream_transcode_member self z "to_cryptex" file_info = inl (content +:+ Str.nl)
  /\ transcode_rule_content self content "to_cryptex" = content.
Proof.
  intros Hread Hcr Hheaders. split.
  2: { unfold transcode_rule_content.
       change (String.eqb "to_cryptex" "from_cryptex") with false.
       exact (forward_without_condition self content Hheaders). }
  rewrite (stream_transcode_member_stored self z _ _ _ Hread). f_equal.
  assert (Hid : Forall (fun line => Str.rstrip_newlines line = line)
                  (Str.split Char.newline content)).
  { pose proof (split_pieces Char.newline content) as Hnl.
    pose proof (split_keeps _ Char.newline content (absent_forallb _ _ Hcr)) as Hcr'.
    apply List.Forall_forall. intros line Hin.
    apply rstrip_newlines_id.
    - apply absent_forallb. exact (proj1 (List.Forall_forall _ _) Hnl line Hin).
    - exact (proj1 (List.Forall_forall _ _) Hcr' line Hin). }
  unfold stream_transcode_lines. rewrite stream_from_no_condition.
  - rewrite <- (concat_lines content). f_equal.
    apply map_ext_in. intros line Hin.
    rewrite (proj1 (List.Forall_forall _ _) Hid line Hin). reflexivity.
  - apply List.Forall_forall. intros line Hin.
    rewrite (proj1 (List.Forall_forall _ _) Hid line Hin).
    exact (proj1 (List.Forall_forall _ _) Hheaders line Hin).
  - reflexivity.
Qed.

Lemma streamed_member_gains_a_line_feed_witness :
  stream_transcode_member scenario_transcoder colliding_archive "to_cryptex"
    "linux/trojan.yar"
  = inl ("rule linux_trojan { condition: true }" +:+ Str.nl).
Proof.
  refine (proj1 (streamed_member_gains_a_line_feed scenario_transcoder colliding_archive
                   "linux/trojan.yar" "rule linux_trojan { condition: true }"
                   eq_refl eq_refl _)).
  vm_compute. repeat constructor.
Defined.

(** ** Streaming is incremental *)

(** X17.  What [stream_transcode_lines] and the forward transform give for
    the first lines of an input does not depend on the lines that follow:
    the output for a prefix is a prefix of the output for the whole input,
    and the rest is what comes out for the remaining lines under the
    section flags reached. *)
Theorem output_of_a_prefix_is_a_prefix self mode xs ys :
  stream_transcode_lines self (xs ++ ys) mode
  = stream_transcode_lines self xs mode
    ++ stream_from self mode (sections_after no_section xs) ys
  /\ to_cryptex_lines self no_section (xs ++ ys)
     = to_cryptex_lines self no_section xs
       ++ to_cryptex_lines self (sections_past no_section xs) ys
  /\ from_cryptex_lines self (xs ++ ys)
     = from_cryptex_lines self xs ++ from_cryptex_lines self ys.
Proof.
  split; [|split].
  - apply stream_from_app.
  - apply to_cryptex_lines_app.
  - apply from_cryptex_lines_app.
Qed.

(** ** Which lines are headers *)

Lemma map_append f (a b : string) : Str.map f (a +:+ b) = Str.map f a +:+ Str.map f b.
Proof.
  induction a as [|c a IH]; [reflexivity|].
  rewrite append_cons. simpl. rewrite IH. reflexivity.
Qed.

Lemma lower_c_is_no_space c : Char.lower c = "c"%char -> Char.is_space c = false.
Proof.
  destruct c as [[] [] [] [] [] [] [] []]; vm_compute; intros H;
    first [reflexivity | discriminate H].
Qed.

Lemma lstrip_of_blanks blanks :
  Str.forallb Char.is_space blanks = true -> Str.lstrip blanks = EmptyString.
Proof.
  induction blanks as [|c blanks IH]; [reflexivity|]. simpl. intros H.
  apply andb_true_iff in H as [-> H]. exact (IH H).
Qed.

(** X18.  The header of the condition section is recognised in every
    spelling of its letters and with any blanks before and after it: from
    then on the condition flag is up and the strings flag is down. *)
Theorem condition_header_is_recognised st before header after :
  Str.forallb Char.is_space before = true ->
  Str.lower header = "condition:" ->
  Str.forallb Char.is_space after = true ->
  detect_sections st (before +:+ header +:+ after) = Sections true false.
Proof.
  intros Hbefore Hheader Hafter.
  assert (Hfound : Re.section_header "condition:" (before +:+ header +:+ after) = true).
  { unfold Re.section_header. rewrite (lstrip_blanks _ _ Hbefore).
    assert (Hstrip : Str.lstrip (header +:+ after) = header +:+ after).
    { destruct header as [|c header]; [discriminate|].
      rewrite append_cons. simpl Str.lstrip.
      injection Hheader as Hc _. rewrite (lower_c_is_no_space c Hc). reflexivity. }
    rewrite Hstrip. unfold Str.lower in *. rewrite map_append, Hheader.
    rewrite (startswith_append "condition:").
    replace (String.length "condition:") with (String.length header)
      by (rewrite <- Hheader, length_map; reflexivity).
    rewrite drop_append, (lstrip_of_blanks _ Hafter). reflexivity. }
  unfold detect_sections. rewrite Hfound. reflexivity.
Qed.

Lemma condition_header_is_recognised_witness :
  detect_sections (Sections false true) ("    " +:+ "Condition:" +:+ " ")
  = Sections true false.
Proof.
  exact (condition_header_is_recognised (Sections false true) "    " "Condition:" " "
           eq_refl eq_refl eq_refl).
Defined.

(** X19.  The line that opens a rule, [rule] followed by a blank and the
    name, is no header for the transcoder (only [rule:] and [meta:] are):
    it leaves the section flags as they are, so the condition flag of one
    rule stays up through the opening line of the next. *)
Theorem rule_declaration_keeps_the_flags self st rest :
  detect_sections st ("rule " +:+ rest) = st
  /\ (in_condition st = true ->
      to_cryptex_lines self st [ "rule " +:+ rest ]
      = to_cryptex_line self st ("rule " +:+ rest)
      /\ in_condition (sections_past st [ "rule " +:+ rest ]) = true).
Proof.
  assert (Hkeep : detect_sections st ("rule " +:+ rest) = st) by reflexivity.
  split; [exact Hkeep|]. intros Hcondition. split.
  - cbn [to_cryptex_lines]. rewrite Hkeep, app_nil_r. reflexivity.
  - unfold sections_past. cbn [fold_left]. rewrite Hkeep. exact Hcondition.
Qed.

Lemma rule_declaration_keeps_the_flags_witness :
  to_cryptex_lines scenario_transcoder (Sections true false) [ "rule " +:+ "next { // pe.x" ]
  = to_cryptex_line scenario_transcoder (Sections true false) ("rule " +:+ "next { // pe.x")
  /\ in_condition (sections_past (Sections true false) [ "rule " +:+ "next { // pe.x" ])
     = true.
Proof.
  exact (proj2 (rule_declaration_keeps_the_flags scenario_transcoder
                  (Sections true false) "next { // pe.x") eq_refl).
Defined.

(** ** Tags in the reverse direction of the stream *)

(** X20.  In the reverse direction [stream_transcode_lines], unlike
    [_transcode_from_cryptex], tags too: a line that the reverse
    substitution changes is yielded behind a tag that carries the
    obfuscated line, and streaming that tag in the reverse direction once
    more gives the obfuscated line back (stripped on the left), not the
    restored one. *)
Theorem reverse_stream_tags_the_obfuscated_line self st st' line :
  Str.contains Str.nl line = false ->
  Str.contains Re.marker line = false ->
  Str.nonempty (Str.lstrip line) = true ->
  changed (reverse_substitution self line) line = true ->
  from_cryptex_line self line = [reverse_substitution self line]
  /\ stream_step self "from_cryptex" st line
     = [ ("    // Original: " +:+ line) +:+ Str.nl;
         reverse_substitution self line +:+ Str.nl ]
  /\ stream_step self "from_cryptex" st' ("    // Original: " +:+ line)
     = [ Str.lstrip line +:+ Str.nl ].
Proof.
  intros Hline Hmarker Hstrip Hchanged. split; [|split].
  - unfold from_cryptex_line. rewrite Hmarker. reflexivity.
  - unfold stream_step, stream_emit.
    change (String.eqb "from_cryptex" "to_cryptex") with false.
    change (String.eqb "from_cryptex" "from_cryptex") with true.
    cbn [andb]. rewrite Hmarker, Hchanged, append_assoc. reflexivity.
  - unfold stream_step.
    change (String.eqb "from_cryptex" "to_cryptex") with false.
    change (String.eqb "from_cryptex" "from_cryptex") with true.
    cbn [andb]. rewrite tag_has_marker.
    destruct (Str.lstrip line) as [|d r] eqn:E; [discriminate|].
    assert (Hpayload : Re.blanks_then_payload (String " " line) = Some (String d r)).
    { apply blanks_then_payload_line; [exact (no_newline_forallb line Hline) | exact E]. }
    rewrite (search_original_tag _ _ Hpayload). reflexivity.
Qed.

Lemma reverse_stream_tags_the_obfuscated_line_witness :
  stream_step scenario_transcoder "from_cryptex" no_section "    IronCurtain.x > 5"
  = [ ("    // Original: " +:+ "    IronCurtain.x > 5") +:+ Str.nl;
      reverse_substitution scenario_transcoder "    IronCurtain.x > 5" +:+ Str.nl ].
Proof.
  exact (proj1 (proj2 (reverse_stream_tags_the_obfuscated_line scenario_transcoder
                         no_section no_section "    IronCurtain.x > 5"
                         eq_refl eq_refl eq_refl eq_refl))).
Defined.

(** * Tokens, occurrences, runs and output paths *)

(** ** Output paths of archive members *)

(** A text without the separator is one piece. *)
Lemma split_plain sep s :
  Str.contains (String sep EmptyString) s = false -> Str.split sep s = [s].
Proof.
  induction s as [|c s IH]; [reflexivity|].
  change (Str.contains (String sep EmptyString) (String c s))
    with (Ascii.eqb sep c && true || Str.contains (String sep EmptyString) s).
  intros H. apply orb_false_iff in H as [Hc H]. rewrite andb_true_r in Hc.
  cbn [Str.split]. rewrite Ascii.eqb_sym, Hc, (IH H). reflexivity.
Qed.

Lemma last_piece_plain sep s :
  Str.contains (String sep EmptyString) s = false -> Str.last_piece sep s = s.
Proof. intros H. unfold Str.last_piece. rewrite (split_plain sep s H). reflexivity. Qed.

(** The last piece of a text is the text itself or what stands behind its
    last separator. *)
Lemma last_piece_decompose sep s :
  s = Str.last_piece sep s
  \/ exists before, s = before +:+ String sep (Str.last_piece sep s).
Proof.
  unfold Str.last_piece. induction s as [|c s IH]; [left; reflexivity|].
  cbn [Str.split]. destruct (Ascii.eqb c sep) eqn:Hc.
  - apply Ascii.eqb_eq in Hc. subst c. right.
    pose proof (split_nonempty sep s) as Hne.
    destruct (Str.split sep s) as [|piece pieces] eqn:E; [contradiction|].
    change (List.last (EmptyString :: piece :: pieces) EmptyString)
      with (List.last (piece :: pieces) EmptyString).
    destruct IH as [IH|[before IH]].
    + exists EmptyString. rewrite <- IH. reflexivity.
    + exists (String sep before). rewrite append_cons, <- IH. reflexivity.
  - pose proof (split_nonempty sep s) as Hne.
    destruct (Str.split sep s) as [|piece pieces] eqn:E; [contradiction|].
    destruct pieces as [|piece' pieces].
    + left. destruct IH as [IH|[before IH]].
      * simpl in IH. simpl. rewrite <- IH. reflexivity.
      * exfalso. simpl in IH.
        pose proof (split_pieces sep s) as Hp. rewrite E in Hp.
        apply Forall_cons_iff in Hp as [Hp _].
        pose proof (split_app_sep sep before piece) as (x & xs & Hsplit).
        rewrite <- IH, E in Hsplit. injection Hsplit as Hx Hxs.
        pose proof (split_nonempty sep piece) as Hne'.
        destruct xs; [symmetry in Hxs; contradiction | discriminate].
    + change (List.last (String c piece :: piece' :: pieces) EmptyString)
        with (List.last (piece :: piece' :: pieces) EmptyString).
      destruct IH as [IH|[before IH]].
      * exfalso.
        pose proof (split_pieces sep s) as Hp. rewrite E in Hp.
        assert (Hplain : Str.contains (String sep EmptyString) s = false).
        { rewrite IH.
          apply (Forall_last (fun piece => Str.contains (String sep EmptyString) piece = false));
            [exact Hp | discriminate]. }
        rewrite (split_plain sep s Hplain) in E. discriminate.
      * right. exists (String c before). rewrite append_cons, <- IH. reflexivity.
Qed.

(** [Path(...).name] keeps the member's own file name and drops its
    folders. *)
Lemma path_name_keeps_name folder name :
  Str.contains "/" name = false -> path_name (folder +:+ "/" +:+ name) = name.
Proof.
  intros H. rewrite path_name_drops_folder. apply (last_piece_plain "/" name H).
Qed.

Lemma endswith_append suffix p s :
  Str.endswith suffix s = true -> Str.endswith suffix (p +:+ s) = true.
Proof.
  intros H. induction p as [|c p IH]; [exact H|].
  rewrite append_cons. cbn [Str.endswith]. rewrite IH. apply orb_true_r.
Qed.

Lemma is_rule_file_in_folder folder name :
  is_rule_file name = true -> is_rule_file (folder +:+ name) = true.
Proof.
  unfold is_rule_file. intros H. apply orb_true_iff in H as [H|H].
  - rewrite (endswith_append _ folder name H). reflexivity.
  - rewrite (endswith_append _ folder name H). apply orb_true_r.
Qed.

Lemma append_cancel_r (a b t : string) : a +:+ t = b +:+ t -> a = b.
Proof.
  revert b. induction a as [|c a IH]; intros [|d b] H.
  - reflexivity.
  - exfalso. apply (f_equal String.length) in H.
    rewrite append_nil, append_cons in H. simpl in H. rewrite length_append in H. lia.
  - exfalso. apply (f_equal String.length) in H.
    rewrite append_nil, append_cons in H. simpl in H. rewrite length_append in H. lia.
  - rewrite !append_cons in H. injection H as -> H. rewrite (IH b H). reflexivity.
Qed.

(** Reading the two members of an archive of two members with different
    names. *)
Lemma zip_read_pair name1 name2 member1 member2 :
  name1 <> name2 ->
  zip_read [ (name1, member1); (name2, member2) ] name1 = Some member1
  /\ zip_read [ (name1, member1); (name2, member2) ] name2 = Some member2.
Proof.
  intros Hne. unfold zip_read. cbn [fold_left fst snd].
  rewrite !String.eqb_refl.
  apply not_eq_sym in Hne. apply String.eqb_neq in Hne. rewrite Hne.
  split; reflexivity.
Qed.

Lemma stream_zip_loop_processing joinpath self z output_dir mode total_files file_list :
  forall count (files : gmap string string) file output progress_text,
    In (processing file output progress_text)
      (fst (stream_zip_loop joinpath self z output_dir mode total_files file_list
              count files)) ->
    output = joinpath output_dir (path_name file).
Proof.
  intros count files file output progress_text Hin.
  pose proof (stream_zip_loop_output joinpath self z output_dir mode total_files
                file_list count files) as H.
  exact (proj1 (List.Forall_forall _ _) H _ Hin).
Qed.

(** C10.  Every [processing] event of [stream_transcode_zip] reports as
    output path the output directory joined with [Path(file).name], and
    that name is the member's own file name with the folders of the archive
    stripped: it holds no slash, and the member name is this name, or a
    folder, a slash and this name.  Hence, for every archive made of two
    rule files [folder1/name] and [folder2/name] in different folders, both
    members are reported with the one output path [output_dir / name], the
    file there holds the content of the later member only, and the count
    reported is 2 while a directory that was empty holds 1 file afterwards.
    [transcode_zip_file] does the same: it returns the one path twice. *)
Theorem output_path_collision :
  (forall joinpath self zip_path z output_dir mode files file output progress_text,
     In (processing file output progress_text)
       (fst (stream_transcode_zip joinpath self zip_path z output_dir mode files)) ->
     output = joinpath output_dir (path_name file)
     /\ Str.contains "/" (path_name file) = false
     /\ (file = path_name file
         \/ exists folder, file = folder +:+ "/" +:+ path_name file))
  /\ (forall folder name,
        Str.contains "/" name = false -> path_name (folder +:+ "/" +:+ name) = name)
  /\ (forall joinpath self zip_path output_dir mode (files : gmap string string)
             folder1 folder2 name text1 text2,
        Str.contains "/" name = false ->
        is_rule_file name = true ->
        folder1 <> folder2 ->
        stream_transcode_zip joinpath self zip_path
          [ (folder1 +:+ "/" +:+ name, Stored text1);
            (folder2 +:+ "/" +:+ name, Stored text2) ]
          output_dir mode files
        = ( [ started 2 zip_path;
              processing (folder1 +:+ "/" +:+ name) (joinpath output_dir name) "1/2";
              processing (folder2 +:+ "/" +:+ name) (joinpath output_dir name) "2/2";
              completed 2 2 output_dir ],
            <[ joinpath output_dir name :=
                 Str.concat
                   (stream_transcode_lines self (Str.split Char.newline text2) mode) ]>
              files )
        /\ size (snd (stream_transcode_zip joinpath self zip_path
                        [ (folder1 +:+ "/" +:+ name, Stored text1);
                          (folder2 +:+ "/" +:+ name, Stored text2) ]
                        output_dir mode ∅)) = 1
        /\ transcode_zip_file joinpath self
             [ (folder1 +:+ "/" +:+ name, Stored text1);
               (folder2 +:+ "/" +:+ name, Stored text2) ]
             output_dir mode files
           = ( inl [ joinpath output_dir name; joinpath output_dir name ],
               <[ joinpath output_dir name := transcode_rule_content self text2 mode ]>
                 files )).
Proof.
  split; [|split].
  - intros joinpath self zip_path z output_dir mode files file output progress_text Hin.
    split; [|split].
    + unfold stream_transcode_zip in Hin.
      pose proof (stream_zip_loop_processing joinpath self z output_dir mode
                    (length (List.filter is_rule_file (namelist z)))
                    (List.filter is_rule_file (namelist z)) 0 files
                    file output progress_text) as H.
      destruct (stream_zip_loop joinpath self z output_dir mode _ _ 0 files)
        as [events [count files']].
      cbn [fst] in *. destruct Hin as [Hin|Hin]; [discriminate|].
      apply in_app_or in Hin as [Hin|[Hin|[]]]; [exact (H Hin) | discriminate].
    + apply path_name_has_no_slash.
    + destruct (last_piece_decompose "/" file) as [H|[folder H]].
      * left. exact H.
      * right. exists folder. exact H.
  - apply path_name_keeps_name.
  - intros joinpath self zip_path output_dir mode files folder1 folder2 name text1 text2
           Hplain Hrule Hfolders.
    assert (Hnames : folder1 +:+ "/" +:+ name <> folder2 +:+ "/" +:+ name)
      by (intros H; apply Hfolders; exact (append_cancel_r _ _ _ H)).
    pose proof (is_rule_file_in_folder (folder1 +:+ "/") name Hrule) as Hrule1.
    pose proof (is_rule_file_in_folder (folder2 +:+ "/") name Hrule) as Hrule2.
    rewrite append_assoc in Hrule1, Hrule2.
    set (name1 := folder1 +:+ "/" +:+ name) in *.
    set (name2 := folder2 +:+ "/" +:+ name) in *.
    assert (Hbase1 : path_name name1 = name) by apply (path_name_keeps_name _ _ Hplain).
    assert (Hbase2 : path_name name2 = name) by apply (path_name_keeps_name _ _ Hplain).
    destruct (zip_read_pair name1 name2 (Stored text1) (Stored text2) Hnames)
      as [Hread1 Hread2].
    assert (Hstream : forall files : gmap string string,
               stream_transcode_zip joinpath self zip_path
                 [ (name1, Stored text1); (name2, Stored text2) ] output_dir mode files
               = ( [ started 2 zip_path;
                     processing name1 (joinpath output_dir name) "1/2";
                     processing name2 (joinpath output_dir name) "2/2";
                     completed 2 2 output_dir ],
                   <[ joinpath output_dir name :=
                        Str.concat
                          (stream_transcode_lines self (Str.split Char.newline text2)
                             mode) ]> files )).
    { intros files0. unfold stream_transcode_zip.
      cbn [namelist List.map fst List.filter]. rewrite Hrule1, Hrule2.
      cbn [length stream_zip_loop].
      rewrite (stream_transcode_member_stored _ _ _ _ _ Hread1).
      rewrite (stream_transcode_member_stored _ _ _ _ _ Hread2).
      rewrite Hbase1, Hbase2. cbn [app]. rewrite insert_insert_eq. reflexivity. }
    split; [apply Hstream | split].
    + rewrite Hstream. cbn [snd]. rewrite insert_empty. apply map_size_singleton.
    + unfold transcode_zip_file. cbn [namelist List.map fst transcode_zip_loop].
      rewrite Hrule1, Hrule2, Hread1, Hread2, Hbase1, Hbase2.
      cbn [app]. rewrite insert_insert_eq. reflexivity.
Qed.

Lemma output_path_collision_witness :
  stream_transcode_zip posix_joinpath scenario_transcoder "rules.zip" colliding_archive
    "out" "to_cryptex" ∅
  = ( [ started 2 "rules.zip";
        processing "windows/trojan.yar" "out/trojan.yar" "1/2";
        processing "linux/trojan.yar" "out/trojan.yar" "2/2";
        completed 2 2 "out" ],
      {[ "out/trojan.yar" := "rule linux_trojan { condition: true }" +:+ Str.nl ]} )
  /\ size (snd (stream_transcode_zip posix_joinpath scenario_transcoder "rules.zip"
                  colliding_archive "out" "to_cryptex" ∅)) = 1
  /\ transcode_zip_file posix_joinpath scenario_transcoder colliding_archive
       "out" "to_cryptex" ∅
     = ( inl [ "out/trojan.yar"; "out/trojan.yar" ],
         {[ "out/trojan.yar" := "rule linux_trojan { condition: true }" ]} ).
Proof.
  pose proof (proj2 (proj2 output_path_collision) posix_joinpath scenario_transcoder
                "rules.zip" "out" "to_cryptex" ∅ "windows" "linux" "trojan.yar"
                "rule windows_trojan { condition: true }"
                "rule linux_trojan { condition: true }"
                eq_refl eq_refl ltac:(discriminate)) as (Hstream & Hsize & Hfile).
  split; [|split].
  - etransitivity; [exact Hstream|]. vm_compute. reflexivity.
  - exact Hsize.
  - etransitivity; [exact Hfile|]. vm_compute. reflexivity.
Defined.

(** ** Two runs of the streaming transform *)

Lemma generator_resume_spec self mode input_stream :
  forall st,
    match stream_from self mode st input_stream with
    | [] =>
        fst (generator_resume self mode st input_stream) = None
        /\ generator_remaining (snd (generator_resume self mode st input_stream)) = []
    | line :: lines =>
        fst (generator_resume self mode st input_stream) = Some line
        /\ generator_remaining (snd (generator_resume self mode st input_stream)) = lines
    end.
Proof.
  induction input_stream as [|raw rest IH]; intros st; [split; reflexivity|].
  cbn [stream_from generator_resume].
  destruct (stream_step self mode
              (detect_sections st (Str.rstrip_newlines raw)) (Str.rstrip_newlines raw))
    as [|yielded pending].
  - apply IH.
  - split; reflexivity.
Qed.

(** A [next] yields the first of the lines still to come and leaves the
    others; when none is left it raises [StopIteration] and none is left
    afterwards. *)
Lemma generator_next_spec g :
  match generator_remaining g with
  | [] =>
      fst (generator_next g) = None
      /\ generator_remaining (snd (generator_next g)) = []
  | line :: lines =>
      fst (generator_next g) = Some line
      /\ generator_remaining (snd (generator_next g)) = lines
  end.
Proof.
  destruct g as [self mode st input_stream [|yielded pending]].
  - apply generator_resume_spec.
  - split; reflexivity.
Qed.

Lemma generator_next_firstn g n :
  collect (fst (generator_next g))
    (firstn n (generator_remaining (snd (generator_next g))))
  = firstn (S n) (generator_remaining g).
Proof.
  pose proof (generator_next_spec g) as H.
  destruct (generator_remaining g) as [|line lines]; destruct H as [-> ->].
  - rewrite firstn_nil. reflexivity.
  - reflexivity.
Qed.

(** Whatever the order of the pulls, each generator has yielded the first
    lines of what it had to yield, as many as it was pulled for. *)
Lemma pull_all_spec schedule :
  forall g1 g2,
    pull_all schedule g1 g2
    = (firstn (pulls first_run schedule) (generator_remaining g1),
       firstn (pulls second_run schedule) (generator_remaining g2)).
Proof.
  induction schedule as [|[|] rest IH]; intros g1 g2; [reflexivity| |].
  - cbn [pull_all pulls].
    pose proof (generator_next_firstn g1 (pulls first_run rest)) as H.
    destruct (generator_next g1) as [yielded g1']. rewrite IH.
    cbn [fst snd] in H. rewrite H. reflexivity.
  - cbn [pull_all pulls].
    pose proof (generator_next_firstn g2 (pulls second_run rest)) as H.
    destruct (generator_next g2) as [yielded g2']. rewrite IH.
    cbn [fst snd] in H. rewrite H. reflexivity.
Qed.

(** C9.  Two runs of [stream_transcode_lines] on the same input lines and
    in the same mode, on one transcoder or on two transcoders constructed
    from dictionaries that give the same symbol map, yield the same lines:
    however a consumer interleaves its pulls from the two generators, each
    has yielded the first lines of the one output sequence, as many as it
    was pulled for; so after equally many pulls the two outputs are equal,
    and once each has been pulled for the whole output, both are that
    output.  Neither run sees what the other has read: the flags and the
    place in the input belong to the frame of each call and start afresh
    with it. *)
Theorem two_runs_yield_the_same_lines entries1 entries2 input_stream mode schedule :
  _build_symbol_map entries1 = _build_symbol_map entries2 ->
  pull_all schedule
    (stream_transcode_lines_generator (RuleTranscoder_init entries1) input_stream mode)
    (stream_transcode_lines_generator (RuleTranscoder_init entries2) input_stream mode)
  = (firstn (pulls first_run schedule)
       (stream_transcode_lines (RuleTranscoder_init entries1) input_stream mode),
     firstn (pulls second_run schedule)
       (stream_transcode_lines (RuleTranscoder_init entries1) input_stream mode))
  /\ (pulls first_run schedule = pulls second_run schedule ->
      fst (pull_all schedule
             (stream_transcode_lines_generator (RuleTranscoder_init entries1)
                input_stream mode)
             (stream_transcode_lines_generator (RuleTranscoder_init entries2)
                input_stream mode))
      = snd (pull_all schedule
               (stream_transcode_lines_generator (RuleTranscoder_init entries1)
                  input_stream mode)
               (stream_transcode_lines_generator (RuleTranscoder_init entries2)
                  input_stream mode)))
  /\ (length (stream_transcode_lines (RuleTranscoder_init entries1) input_stream mode)
      <= pulls first_run schedule ->
      length (stream_transcode_lines (RuleTranscoder_init entries1) input_stream mode)
      <= pulls second_run schedule ->
      pull_all schedule
        (stream_transcode_lines_generator (RuleTranscoder_init entries1)
           input_stream mode)
        (stream_transcode_lines_generator (RuleTranscoder_init entries2)
           input_stream mode)
      = (stream_transcode_lines (RuleTranscoder_init entries1) input_stream mode,
         stream_transcode_lines (RuleTranscoder_init entries2) input_stream mode)).
Proof.
  intros Hmap.
  assert (Hsame : stream_transcode_lines (RuleTranscoder_init entries2) input_stream mode
                  = stream_transcode_lines (RuleTranscoder_init entries1) input_stream mode).
  { unfold stream_transcode_lines. apply stream_from_tables; [reflexivity|].
    simpl. rewrite Hmap. reflexivity. }
  assert (Hpull : pull_all schedule
                    (stream_transcode_lines_generator (RuleTranscoder_init entries1)
                       input_stream mode)
                    (stream_transcode_lines_generator (RuleTranscoder_init entries2)
                       input_stream mode)
                  = (firstn (pulls first_run schedule)
                       (stream_transcode_lines (RuleTranscoder_init entries1)
                          input_stream mode),
                     firstn (pulls second_run schedule)
                       (stream_transcode_lines (RuleTranscoder_init entries1)
                          input_stream mode))).
  { rewrite pull_all_spec. unfold generator_remaining, stream_transcode_lines_generator.
    cbn [gen_pending gen_self gen_mode gen_sections gen_input app].
    fold (stream_transcode_lines (RuleTranscoder_init entries1) input_stream mode).
    fold (stream_transcode_lines (RuleTranscoder_init entries2) input_stream mode).
    rewrite Hsame. reflexivity. }
  split; [exact Hpull | split].
  - intros Hequal. rewrite Hpull. cbn [fst snd]. rewrite Hequal. reflexivity.
  - intros H1 H2. rewrite Hpull, Hsame.
    rewrite !firstn_all2 by assumption. reflexivity.
Qed.

Lemma two_runs_yield_the_same_lines_witness :
  pull_all [ first_run; second_run; second_run; first_run; first_run; second_run;
             first_run; second_run ]
    (stream_transcode_lines_generator
       (RuleTranscoder_init [ Entry "pe_get_section" "IronCurtain-Section" ])
       [ "    condition:"; "        pe.number_of_sections > 5" ] "to_cryptex")
    (stream_transcode_lines_generator
       (RuleTranscoder_init
          [ Entry "" "Nameless"; Entry "pe_get_section" "IronCurtain-Section" ])
       [ "    condition:"; "        pe.number_of_sections > 5" ] "to_cryptex")
  = ( [ "    condition:" +:+ Str.nl;
        "    // Original:         pe.number_of_sections > 5" +:+ Str.nl;
        "        IronCurtain.number_of_sections > 5" +:+ Str.nl ],
      [ "    condition:" +:+ Str.nl;
        "    // Original:         pe.number_of_sections > 5" +:+ Str.nl;
        "        IronCurtain.number_of_sections > 5" +:+ Str.nl ] ).
Proof.
  etransitivity.
  - exact (proj1 (two_runs_yield_the_same_lines
                    [ Entry "pe_get_section" "IronCurtain-Section" ]
                    [ Entry "" "Nameless"; Entry "pe_get_section" "IronCurtain-Section" ]
                    [ "    condition:"; "        pe.number_of_sections > 5" ] "to_cryptex"
                    [ first_run; second_run; second_run; first_run; first_run; second_run;
                      first_run; second_run ]
                    eq_refl)).
  - vm_compute. reflexivity.
Defined.

(** ** Replacement, occurrence by occurrence *)






(** ** The two passes of the reverse substitution on a line in which one
    entry of the table occurs *)













(** ** Section scoping, token by token *)

(** *** Runs of characters of one class *)

Lemma span_app p (a b : string) :
  Str.forallb p a = true ->
  match b with String d _ => p d = false | EmptyString => True end ->
  Re.span p (a +:+ b) = (a, b).
Proof.
  intros Ha Hb. induction a as [|c a IH].
  - rewrite append_nil. destruct b as [|d b]; [reflexivity|].
    simpl. rewrite Hb. reflexivity.
  - simpl in Ha. apply andb_true_iff in Ha as [Hc Ha].
    rewrite append_cons. simpl. rewrite Hc, (IH Ha). reflexivity.
Qed.

Lemma span_spec p s :
  exists a b,
    s = a +:+ b
    /\ Str.forallb p a = true
    /\ match b with String d _ => p d = false | EmptyString => True end
    /\ Re.span p s = (a, b).
Proof.
  induction s as [|c s (a & b & Hs & Ha & Hb & Hspan)].
  - exists EmptyString, EmptyString. repeat split.
  - destruct (p c) eqn:Hc.
    + exists (String c a), b. rewrite append_cons, <- Hs. simpl.
      rewrite Hc, Ha, Hspan. repeat split. exact Hb.
    + exists EmptyString, (String c s). simpl. rewrite Hc. repeat split.
Qed.

(** *** The text in front of the first dot *)

Lemma ends_with_word_run w :
  Str.forallb Char.is_word w = true -> ends_with_word true w = true.
Proof.
  induction w as [|c w IH]; intros H; [reflexivity|].
  simpl in H. apply andb_true_iff in H as [Hc H]. simpl. rewrite Hc. exact (IH H).
Qed.

Lemma no_dot_head d r : Str.contains "." (String d r) = false -> Ascii.eqb d "." = false.
Proof.
  change (Str.contains "." (String d r))
    with (Ascii.eqb "." d && true || Str.contains "." r).
  intros H. apply orb_false_iff in H as [H _]. rewrite andb_true_r in H.
  rewrite Ascii.eqb_sym. exact H.
Qed.

Section ScanPrefix.
Variable pattern : Re.matcher.
Variable repl : Re.found -> string.
Hypothesis needs_word :
  forall prev s, Re.starts_with_word s = false -> pattern prev s = None.
Hypothesis needs_dot :
  forall prev w d r,
    Str.forallb Char.is_word w = true ->
    Char.is_word d = false ->
    Ascii.eqb d "." = false ->
    pattern prev (w +:+ String d r) = None.

(** A text without a dot that ends in a character that is no word
    character is copied, whatever follows it. *)
Lemma sub_from_prefix before rest :
  forall prev,
    Str.contains "." before = false ->
    ends_with_word true before = false ->
    Re.sub_from pattern repl prev 0 (before +:+ rest)
    = before +:+ Re.sub_from pattern repl false 0 rest.
Proof.
  induction before as [|c before IH]; intros prev Hdot Hend; [discriminate|].
  assert (Hnone : pattern prev (String c before +:+ rest) = None).
  { destruct (Char.is_word c) eqn:Hc;
      [|apply needs_word; rewrite append_cons; exact Hc].
    destruct (span_word_spec before) as (w & r & Hbefore & Hw & Hr).
    subst before. destruct r as [|d r].
    - exfalso. rewrite append_empty_r in Hend. simpl in Hend. rewrite Hc in Hend.
      rewrite (ends_with_word_run w Hw) in Hend. discriminate.
    - simpl in Hr.
      assert (Hd : Ascii.eqb d "." = false).
      { apply contains_tail in Hdot. apply contains_append_r in Hdot.
        exact (no_dot_head d r Hdot). }
      rewrite append_cons, append_assoc.
      refine (needs_dot prev (String c w) d (r +:+ rest) _ Hr Hd).
      simpl. rewrite Hc, Hw. reflexivity. }
  rewrite append_cons in *. cbn [Re.sub_from]. rewrite Hnone.
  destruct before as [|c' before].
  - simpl in Hend. rewrite Hend. reflexivity.
  - rewrite (IH (Char.is_word c) (contains_tail _ _ _ Hdot) Hend). reflexivity.
Qed.

Lemma sub_from_prefix_start before rest :
  Str.contains "." before = false ->
  ends_with_word false before = false ->
  Re.sub_from pattern repl false 0 (before +:+ rest)
  = before +:+ Re.sub_from pattern repl false 0 rest.
Proof.
  intros Hdot Hend. destruct before as [|c before]; [reflexivity|].
  apply sub_from_prefix; assumption.
Qed.
End ScanPrefix.

Lemma module_field_needs_dot_after prev w d r :
  Str.forallb Char.is_word w = true ->
  Char.is_word d = false ->
  Ascii.eqb d "." = false ->
  Re.module_field prev (w +:+ String d r) = None.
Proof.
  intros Hw Hd Hdot. destruct w as [|c w].
  - apply module_field_needs_word. exact Hd.
  - rewrite (module_field_at_word prev c w (String d r) Hw Hd).
    cbn [Re.expect]. rewrite Hdot. destruct prev; reflexivity.
Qed.

Lemma module_call_needs_dot_after prev w d r :
  Str.forallb Char.is_word w = true ->
  Char.is_word d = false ->
  Ascii.eqb d "." = false ->
  Re.module_call prev (w +:+ String d r) = None.
Proof.
  intros Hw Hd Hdot. destruct w as [|c w].
  - apply module_call_needs_word. exact Hd.
  - rewrite (module_call_at_word prev c w (String d r) Hw Hd).
    cbn [Re.expect]. rewrite Hdot. destruct prev; reflexivity.
Qed.

(** *** The first substitution at a token *)

Lemma module_field_token m f s :
  identifier m = true ->
  identifier f = true ->
  Re.starts_with_word s = false ->
  Re.module_field false (m +:+ String "." (f +:+ s))
  = Some (Re.Found m f (String.length m + 1 + String.length f)).
Proof.
  intros Hm Hf Hs. unfold identifier in Hm, Hf.
  apply andb_true_iff in Hm as [Hm0 Hm]. apply andb_true_iff in Hf as [Hf0 Hf].
  destruct m as [|c w]; [discriminate|].
  rewrite (module_field_at_word false c w (String "." (f +:+ s)) Hm eq_refl).
  cbn [Re.expect]. rewrite Ascii.eqb_refl, (span_word_app f s Hf Hs), Hf0.
  reflexivity.
Qed.

Lemma field_scan_token repl m f s :
  identifier m = true ->
  identifier f = true ->
  Re.starts_with_word s = false ->
  Re.sub_from Re.module_field repl false 0 (m +:+ String "." (f +:+ s))
  = repl (Re.Found m f (String.length m + 1 + String.length f))
    +:+ Re.sub_from Re.module_field repl true 0 s.
Proof.
  intros Hm Hf Hs.
  pose proof (module_field_token m f s Hm Hf Hs) as Hfound.
  assert (Hshape : m +:+ String "." (f +:+ s) = (m +:+ String "." f) +:+ s).
  { rewrite append_assoc, append_cons. reflexivity. }
  rewrite Hshape in *.
  destruct (m +:+ String "." f) as [|c u] eqn:Hu.
  { destruct m; discriminate. }
  rewrite (sub_from_match _ repl false c u s _ Hfound).
  - rewrite <- Hu.
    change (String "." f) with (String "." EmptyString +:+ f).
    rewrite !ends_with_word_append, (ends_with_word_identifier _ f Hf). reflexivity.
  - cbn [Re.width]. rewrite <- Hu, length_append. simpl. lia.
Qed.

(** *** The head of what the first substitution puts out *)

Lemma translation_starts_with_word entries name :
  exists x rest,
    translate_module_reference (RuleTranscoder_init entries) name = String x rest
    /\ Char.is_word x = true.
Proof.
  unfold translate_module_reference.
  destruct (Dict.get (Str.lower name) (module_mappings (RuleTranscoder_init entries)))
    as [codename|] eqn:Hget.
  - destruct (dict_get_In _ _ _ Hget) as [k Hin].
    destruct (proj1 (List.Forall_forall _ _) (module_mappings_final entries) _ Hin)
      as [Hident _].
    cbn [snd] in Hident. unfold identifier in Hident.
    destruct codename as [|x rest]; [discriminate|].
    apply andb_true_iff in Hident as [_ Hword]. simpl in Hword.
    apply andb_true_iff in Hword as [Hx _]. exists x, rest. split; [reflexivity | exact Hx].
  - exists "M"%char, ("odule-" +:+ Str.title name). split; reflexivity.
Qed.

Lemma field_scan_head entries prev e r :
  exists x rest,
    Re.sub_from Re.module_field (translate_field (RuleTranscoder_init entries)) prev 0
      (String e r)
    = String x rest
    /\ (x = e \/ Char.is_word x = true).
Proof.
  cbn [Re.sub_from].
  destruct (Re.module_field prev (String e r)) as [found|].
  - unfold translate_field.
    destruct (translation_starts_with_word entries (Re.group1 found))
      as (x & rest & -> & Hx).
    rewrite !append_cons. eexists x, _. split; [reflexivity | right; exact Hx].
  - eexists e, _. split; [reflexivity | left; reflexivity].
Qed.

Lemma word_is_no_bracket x : Char.is_word x = true -> Ascii.eqb x "(" = false.
Proof.
  intros H. destruct (Ascii.eqb x "(") eqn:E; [|reflexivity].
  apply Ascii.eqb_eq in E. subst x. discriminate H.
Qed.

Lemma word_is_no_space x : Char.is_word x = true -> Char.is_space x = false.
Proof.
  intros H. destruct (Char.is_space x) eqn:E; [|reflexivity].
  rewrite (space_not_word x E) in H. discriminate H.
Qed.

(** Where no bracket follows the blanks, none follows them in what the
    first substitution puts out. *)
Lemma field_scan_keeps_no_call entries s prev :
  Re.expect "(" (snd (Re.span Char.is_space s)) = None ->
  Re.expect "("
    (snd (Re.span Char.is_space
            (Re.sub_from Re.module_field (translate_field (RuleTranscoder_init entries))
               prev 0 s)))
  = None.
Proof.
  destruct (span_spec Char.is_space s) as (blanks & r & -> & Hblanks & Hr & Hspan).
  rewrite Hspan. cbn [snd]. intros Hcall.
  destruct (sub_from_blanks _ (translate_field (RuleTranscoder_init entries))
              module_field_needs_word blanks r prev Hblanks) as [prev' ->].
  destruct r as [|e r].
  - cbn [Re.sub_from].
    rewrite (span_app Char.is_space blanks EmptyString Hblanks I). reflexivity.
  - destruct (field_scan_head entries prev' e r) as (x & rest & -> & Hx).
    cbn [Re.expect] in Hcall.
    assert (Hspace : Char.is_space x = false).
    { destruct Hx as [->|Hx]; [exact Hr | exact (word_is_no_space x Hx)]. }
    assert (Hbracket : Ascii.eqb x "(" = false).
    { destruct Hx as [->|Hx]; [|exact (word_is_no_bracket x Hx)].
      destruct (Ascii.eqb e "("); [discriminate | reflexivity]. }
    rewrite (span_app Char.is_space blanks (String x rest) Hblanks Hspace).
    cbn [snd Re.expect]. rewrite Hbracket. reflexivity.
Qed.

Lemma field_scan_keeps_no_dot repl s :
  Re.starts_with_word s = false ->
  Re.expect "." s = None ->
  Re.expect "." (Re.sub_from Re.module_field repl true 0 s) = None.
Proof.
  destruct s as [|d s]; [reflexivity|]. intros Hd Hdot. simpl in Hd.
  rewrite (sub_from_nonword _ repl module_field_needs_word true d s Hd).
  cbn [Re.expect] in *. destruct (Ascii.eqb d "."); [discriminate | reflexivity].
Qed.

(** *** The second substitution at a token that is no call *)

Lemma call_scan_token repl a f rest :
  identifier a = true ->
  identifier f = true ->
  Re.starts_with_word rest = false ->
  Re.expect "." rest = None ->
  Re.expect "(" (snd (Re.span Char.is_space rest)) = None ->
  Re.sub_from Re.module_call repl false 0 (a +:+ String "." (f +:+ rest))
  = a +:+ String "." (f +:+ Re.sub_from Re.module_call repl true 0 rest).
Proof.
  intros Ha Hf Hrest Hdot Hcall. unfold identifier in Ha, Hf.
  apply andb_true_iff in Ha as [Ha0 Ha]. apply andb_true_iff in Hf as [Hf0 Hf].
  destruct a as [|c w]; [discriminate|].
  destruct f as [|c' w']; [discriminate|].
  assert (Hnone : Re.module_call false (String c w +:+ String "." (String c' w' +:+ rest))
                  = None).
  { rewrite (module_call_at_word false c w (String "." (String c' w' +:+ rest)) Ha
               eq_refl).
    cbn [Re.expect]. rewrite Ascii.eqb_refl, (span_word_app _ rest Hf Hrest).
    cbn [Str.nonempty].
    destruct (Re.span Char.is_space rest) as [blanks after_blanks].
    cbn [snd] in Hcall. rewrite Hcall. reflexivity. }
  assert (Hnone' : Re.module_call false (String c' w' +:+ rest) = None).
  { rewrite (module_call_at_word false c' w' rest Hf Hrest), Hdot. reflexivity. }
  simpl in Ha. apply andb_true_iff in Ha as [Hc Ha].
  simpl in Hf. apply andb_true_iff in Hf as [Hc' Hf].
  rewrite !append_cons in *. cbn [Re.sub_from]. rewrite Hnone, Hc.
  rewrite (sub_from_inside_word _ repl module_call_needs_boundary w _ Ha).
  rewrite (sub_from_nonword _ repl module_call_needs_word true "." _ eq_refl).
  cbn [Re.sub_from]. rewrite Hnone', Hc'.
  rewrite (sub_from_inside_word _ repl module_call_needs_boundary w' _ Hf).
  reflexivity.
Qed.

(** *** Title case keeps identifiers *)

Lemma case_keeps_word c :
  Char.is_word c = true ->
  Char.is_word (Char.lower c) = true /\ Char.is_word (Char.upper c) = true.
Proof.
  destruct c as [[] [] [] [] [] [] [] []]; vm_compute; intros H;
    first [split; reflexivity | discriminate H].
Qed.

Lemma title_from_keeps_words prev s :
  Str.forallb Char.is_word s = true ->
  Str.forallb Char.is_word (Str.title_from prev s) = true.
Proof.
  revert prev. induction s as [|c s IH]; intros prev H; [reflexivity|].
  simpl in H. apply andb_true_iff in H as [Hc H].
  cbn [Str.title_from Str.forallb]. rewrite (IH _ H), andb_true_r.
  destruct (case_keeps_word c Hc) as [Hl Hu]. destruct prev; assumption.
Qed.

Lemma title_identifier m : identifier m = true -> identifier (Str.title m) = true.
Proof.
  unfold identifier, Str.title. intros H. apply andb_true_iff in H as [H0 H].
  rewrite (title_from_keeps_words false m H), andb_true_r.
  destruct m; [discriminate | reflexivity].
Qed.

(** *** A token that stands free in a line of the condition section *)

Lemma free_token_is_translated entries p m f s :
  Str.contains "." p = false ->
  ends_with_word false p = false ->
  identifier m = true ->
  identifier f = true ->
  Re.starts_with_word s = false ->
  Re.expect "." s = None ->
  Re.expect "(" (snd (Re.span Char.is_space s)) = None ->
  translate_condition_line (RuleTranscoder_init entries) (p +:+ m +:+ "." +:+ f +:+ s)
  = p +:+ translate_module_reference (RuleTranscoder_init entries) m +:+ "." +:+ f
    +:+ Re.sub_from Re.module_call (translate_call (RuleTranscoder_init entries)) true 0
          (Re.sub_from Re.module_field (translate_field (RuleTranscoder_init entries))
             true 0 s).
Proof.
  intros Hp Hend Hm Hf Hs Hdot Hcall.
  set (self := RuleTranscoder_init entries).
  unfold translate_condition_line, Re.sub.
  change ("." +:+ f +:+ s) with (String "." (f +:+ s)).
  rewrite (sub_from_prefix_start _ (translate_field self) module_field_needs_word
             module_field_needs_dot_after p _ Hp Hend).
  rewrite (field_scan_token (translate_field self) m f s Hm Hf Hs).
  set (out := Re.sub_from Re.module_field (translate_field self) true 0 s).
  assert (Hout : Re.starts_with_word out = false)
    by (apply sub_from_keeps_nonword; [apply module_field_needs_word | exact Hs]).
  assert (Hout_dot : Re.expect "." out = None)
    by (apply field_scan_keeps_no_dot; assumption).
  assert (Hout_call : Re.expect "(" (snd (Re.span Char.is_space out)) = None)
    by (apply field_scan_keeps_no_call; exact Hcall).
  rewrite (sub_from_prefix_start _ (translate_call self) module_call_needs_word
             module_call_needs_dot_after p _ Hp Hend).
  f_equal. unfold translate_field. cbn [Re.group1 Re.group2].
  rewrite !append_assoc.
  change ("." +:+ f +:+ out) with (String "." (f +:+ out)).
  change ("." +:+ f +:+ Re.sub_from Re.module_call (translate_call self) true 0 out)
    with (String "." (f +:+ Re.sub_from Re.module_call (translate_call self) true 0 out)).
  unfold translate_module_reference.
  destruct (Dict.get (Str.lower m) (module_mappings self)) as [codename|] eqn:Hget.
  - destruct (dict_get_In _ _ _ Hget) as [k Hin].
    destruct (proj1 (List.Forall_forall _ _) (module_mappings_final entries) _ Hin)
      as [Hident _].
    cbn [snd] in Hident.
    apply call_scan_token; assumption.
  - rewrite !append_assoc, call_scan_module_prefix. f_equal.
    apply call_scan_token; [apply title_identifier| | | |]; assumption.
Qed.

(** C4, as stated, fails.  In the condition section the token
    [pe.sections] of the line [x.pe.sections > 5] is not rewritten: the
    scan matches [x.pe] and goes on behind it, so the line comes out as
    [Module-X.pe.sections > 5], the token still in it, while the same token
    at the head of a dotted chain is rewritten to [IronCurtain.sections]. *)
Lemma chained_token_is_left_verbatim :
  identifier "pe" = true
  /\ identifier "sections" = true
  /\ in_condition
       (sections_past no_section
          ([ "rule r {"; "    condition:" ] ++ [ "        x.pe.sections > 5" ]))
     = true
  /\ to_cryptex_lines scenario_transcoder no_section
       [ "rule r {"; "    condition:"; "        x.pe.sections > 5"; "}" ]
     = [ "rule r {"; "    condition:";
         "    // Original: x.pe.sections > 5";
         "        Module-X.pe.sections > 5"; "}" ]
  /\ Str.contains "pe.sections" "        Module-X.pe.sections > 5" = true
  /\ to_cryptex_lines scenario_transcoder no_section
       [ "rule r {"; "    condition:"; "        pe.sections > 5"; "}" ]
     = [ "rule r {"; "    condition:";
         "    // Original: pe.sections > 5";
         "        IronCurtain.sections > 5"; "}" ].
Proof. repeat split; vm_compute; reflexivity. Qed.

(** C4, amended.  A line read while the flag of the strings section is up
    is passed on as it is, with no tag, whatever tokens it holds.  A line
    read while the flag of the condition section is up that holds a dotted
    pair of identifiers [m.f], wherever in the line, does not come out as
    it went in.  Where the token stands free, that is, no dot stands before
    it in the line, it begins at a word boundary, and neither a word
    character, a dot nor an opening bracket (after blanks) follows it, the
    token is rewritten in place: the text before it is kept, [m] is
    replaced by its translation ([translate_module_reference]), the dot and
    [f] are kept, and the scan goes on behind the token; when no dot
    follows, the rest of the line is kept as well.  The rewritten line is
    passed on behind a tag that records the original, unless it is a
    comment. *)
Theorem section_scoping entries pre line post :
  (in_strings (sections_past no_section (pre ++ [line])) = true ->
   to_cryptex_lines (RuleTranscoder_init entries) no_section (pre ++ line :: post)
   = to_cryptex_lines (RuleTranscoder_init entries) no_section pre
     ++ line
        :: to_cryptex_lines (RuleTranscoder_init entries)
             (sections_past no_section (pre ++ [line])) post)
  /\ (in_condition (sections_past no_section (pre ++ [line])) = true ->
      forall p m f s,
        identifier m = true ->
        identifier f = true ->
        line = p +:+ m +:+ "." +:+ f +:+ s ->
        (exists tag rewritten,
           rewritten <> line
           /\ (tag = [] \/ tag = ["    // Original: " +:+ Str.strip line])
           /\ to_cryptex_lines (RuleTranscoder_init entries) no_section
                (pre ++ line :: post)
              = to_cryptex_lines (RuleTranscoder_init entries) no_section pre
                ++ tag
                ++ rewritten
                   :: to_cryptex_lines (RuleTranscoder_init entries)
                        (sections_past no_section (pre ++ [line])) post)
        /\ (Str.contains "." p = false ->
            ends_with_word false p = false ->
            Re.starts_with_word s = false ->
            Re.expect "." s = None ->
            Re.expect "(" (snd (Re.span Char.is_space s)) = None ->
            translate_condition_line (RuleTranscoder_init entries) line
            = p +:+ translate_module_reference (RuleTranscoder_init entries) m
              +:+ "." +:+ f
              +:+ Re.sub_from Re.module_call
                    (translate_call (RuleTranscoder_init entries)) true 0
                    (Re.sub_from Re.module_field
                       (translate_field (RuleTranscoder_init entries)) true 0 s)
            /\ (Str.contains "." s = false ->
                translate_condition_line (RuleTranscoder_init entries) line
                = p +:+ translate_module_reference (RuleTranscoder_init entries) m
                  +:+ "." +:+ f +:+ s)
            /\ to_cryptex_lines (RuleTranscoder_init entries) no_section
                 (pre ++ line :: post)
               = to_cryptex_lines (RuleTranscoder_init entries) no_section pre
                 ++ (if Str.startswith "//"
                          (Str.strip
                             (translate_condition_line (RuleTranscoder_init entries) line))
                     then []
                     else ["    // Original: " +:+ Str.strip line])
                 ++ translate_condition_line (RuleTranscoder_init entries) line
                    :: to_cryptex_lines (RuleTranscoder_init entries)
                         (sections_past no_section (pre ++ [line])) post)).
Proof.
  rewrite to_cryptex_lines_app, sections_past_snoc. simpl to_cryptex_lines.
  set (st := detect_sections (sections_past no_section pre) line).
  assert (Hex : exclusive st)
    by (apply detect_sections_exclusive, sections_past_exclusive; reflexivity).
  split.
  - intros Hstrings. unfold exclusive in Hex. rewrite Hstrings, andb_true_r in Hex.
    unfold to_cryptex_line, changed. rewrite Hex, String.eqb_refl. reflexivity.
  - intros Hcondition p m f s Hm Hf Hline.
    assert (Hchanged : translate_condition_line (RuleTranscoder_init entries) line <> line).
    { apply translation_changes_line; [apply module_mappings_final|].
      destruct (has_module_field_intro m f s Hm Hf p false) as [H|[H _]];
        [|discriminate].
      rewrite Hline. exact H. }
    unfold to_cryptex_line. rewrite Hcondition. split.
    + exists (if changed (translate_condition_line (RuleTranscoder_init entries) line) line
              then ["    // Original: " +:+ Str.strip line] else []),
             (translate_condition_line (RuleTranscoder_init entries) line).
      split; [exact Hchanged | split].
      * destruct (changed _ line); [right | left]; reflexivity.
      * rewrite <- app_assoc. reflexivity.
    + intros Hp Hend Hs Hdot Hcall.
      pose proof (free_token_is_translated entries p m f s Hp Hend Hm Hf Hs Hdot Hcall)
        as Hexact.
      rewrite <- Hline in Hexact. split; [exact Hexact | split].
      * intros Hrest. rewrite Hexact.
        rewrite (sub_from_without_dot _ _ module_field_needs_dot s true Hrest).
        rewrite (sub_from_without_dot _ _ module_call_needs_dot s true Hrest).
        reflexivity.
      * rewrite <- app_assoc. f_equal. unfold changed.
        apply String.eqb_neq in Hchanged. rewrite Hchanged. cbn [negb andb].
        destruct (Str.startswith "//"
                    (Str.strip (translate_condition_line (RuleTranscoder_init entries) line)));
          reflexivity.
Qed.

Lemma section_scoping_witness :
  to_cryptex_lines scenario_transcoder no_section
    ([ "rule r {"; "    strings:" ] ++ "        $a = pe.sections" :: [ "    condition:" ])
  = to_cryptex_lines scenario_transcoder no_section [ "rule r {"; "    strings:" ]
    ++ "        $a = pe.sections"
       :: to_cryptex_lines scenario_transcoder
            (sections_past no_section
               ([ "rule r {"; "    strings:" ] ++ [ "        $a = pe.sections" ]))
            [ "    condition:" ]
  /\ translate_condition_line scenario_transcoder
       "        $a and pe.sections == foo.bar (1)"
     = "        $a and IronCurtain.sections == Module-Module-Foo.bar(1)"
  /\ translate_condition_line scenario_transcoder "        $a and pe.sections > 5"
     = "        $a and IronCurtain.sections > 5".
Proof.
  split; [|split].
  - exact (proj1 (section_scoping [ Entry "pe_get_section" "IronCurtain-Section" ]
                    [ "rule r {"; "    strings:" ] "        $a = pe.sections"
                    [ "    condition:" ])
             eq_refl).
  - etransitivity.
    + exact (proj1 (proj2 (proj2 (section_scoping
                                    [ Entry "pe_get_section" "IronCurtain-Section" ]
                                    [ "rule r {"; "    condition:" ]
                                    "        $a and pe.sections == foo.bar (1)" [ "}" ])
                             eq_refl "        $a and " "pe" "sections" " == foo.bar (1)"
                             eq_refl eq_refl eq_refl)
                      eq_refl eq_refl eq_refl eq_refl eq_refl)).
    + vm_compute. reflexivity.
  - etransitivity.
    + exact (proj1 (proj2 (proj2 (proj2 (section_scoping
                                    [ Entry "pe_get_section" "IronCurtain-Section" ]
                                    [ "rule r {"; "    condition:" ]
                                    "        $a and pe.sections > 5" [ "}" ])
                             eq_refl "        $a and " "pe" "sections" " > 5"
                             eq_refl eq_refl eq_refl)
                      eq_refl eq_refl eq_refl eq_refl eq_refl))
               eq_refl).
    + vm_compute. reflexivity.
Defined.
